(** * Knowledge-graph viewer: the derivation layer of [knowledge_graph.py]

    A shallow embedding of class [MemoryDB] (the read-only interface to the
    SQLite memory database) and of the label fallback of the two renderers,
    followed by the properties of the derived views.

    Conventions of the embedding:
    - a table is the list of its rows in scan (rowid) order; a table that
      the database file does not contain is [None];
    - INTEGER columns and [COUNT] results are [Z], TEXT columns are
      [string] (a sequence of characters);
    - a SQL statement is a function from the store to a [result]: naming a
      table that does not exist raises [OperationalError], as preparing the
      statement does in SQLite;
    - what SQL leaves to the engine (the order among rows that tie under
      ORDER BY, the row that supplies the bare columns of an aggregate) is a
      field of the class [Engine]; theorems quantify over every engine;
    - methods of [MemoryDB] run in a state-and-error monad over the object. *)

From Stdlib Require Import ZArith List Ascii Sorted Permutation Lia.
From stdpp Require Import base option list strings gmap pretty sorting.

Open Scope Z_scope.

(** ** Backing records *)

(** Modelled from the spec: the schema of the database is created by a
    script outside this file; the columns are those the statements of
    [MemoryDB] name, with the types of section 3 of the specification. *)
Record Session := {
  s_id : Z;
  s_created_at : string;
  s_summary : string;
}.

(** Modelled from the spec: table [knowledge] (see [Session]). *)
Record Knowledge := {
  k_id : Z;
  k_area : string;
  k_summary : string;
  k_updated_at : string;
}.

(** Modelled from the spec: table [facts] (see [Session]). *)
Record Fact := {
  f_id : Z;
  f_fact : string;
}.

(** Modelled from the spec: table [entity_metadata] (see [Session]). *)
Record EntityMention := {
  em_id : Z;
  em_entity : string;
  em_entity_type : string;
  em_source_type : string;
  em_source_id : Z;
  em_created_at : string;
}.

#[global] Instance EntityMention_eq_dec : EqDecision EntityMention.
Proof. solve_decision. Defined.

(** Modelled from the spec: table [entry_relations] (see [Session]). *)
Record RelationEdge := {
  er_from_type : string;
  er_from_id : Z;
  er_to_type : string;
  er_to_id : Z;
  er_relation : string;
  er_created_at : string;
}.

(** The database file behind [self.conn]. *)
Record Store := {
  sessions : option (list Session);
  knowledge : option (list Knowledge);
  facts : option (list Fact);
  entity_metadata : option (list EntityMention);
  entry_relations : option (list RelationEdge);
  memory_fts : bool;
}.

(** ** Results and exceptions *)

Inductive exn :=
  | FileNotFoundError (path : string)
  | OperationalError (no_such_table : string).

Inductive result (A : Type) :=
  | Ok (a : A)
  | Raise (e : exn).
Arguments Ok {A} a.
Arguments Raise {A} e.

Definition rbind {A B} (r : result A) (k : A → result B) : result B :=
  match r with
  | Ok a => k a
  | Raise e => Raise e
  end.

(** [FROM tbl]: the rows of a table, or the error of preparing a statement
    that names a missing table. *)
Definition from_table {A} (name : string) (t : option (list A)) : result (list A) :=
  match t with
  | Some rows => Ok rows
  | None => Raise (OperationalError name)
  end.

(** ** The object and its monad *)

Record MemoryDB := {
  db_path : string;
  conn : Store;
  tables : gmap string bool;
}.

Definition M (A : Type) : Type := MemoryDB → result A * MemoryDB.

#[global] Instance M_ret : MRet M := λ A a self, (Ok a, self).

#[global] Instance M_bind : MBind M := λ A B k m self,
  match m self with
  | (Ok a, self') => k a self'
  | (Raise e, self') => (Raise e, self')
  end.

(** [self.tables.get(name, False)] *)
Definition tables_get (name : string) : M bool :=
  λ self, (Ok (default false (tables self !! name)), self).

(** [self.conn.execute(stmt).fetchall()] for a SELECT statement. *)
Definition execute {A} (stmt : Store → result A) : M A :=
  λ self, (stmt (conn self), self).

Definition run {A} (m : M A) (self : MemoryDB) : result A := fst (m self).

(** ** What SQL leaves to the engine *)

Class Engine := {
  (** [ORDER BY]: [before x y] says that [x] may precede [y]. *)
  order_by : ∀ A : Type, (A → A → bool) → list A → list A;
  order_by_perm : ∀ A (before : A → A → bool) l, order_by A before l ≡ₚ l;
  order_by_sorted : ∀ A (before : A → A → bool),
    (∀ x y, before x y = true ∨ before y x = true) →
    ∀ l, Sorted (λ x y, before x y = true) (order_by A before l);
  (** The row of a group from which an aggregate query reads the columns
      that are not aggregated. *)
  bare_row : ∀ A : Type, A → list A → A;
  bare_row_member : ∀ A (x : A) l, bare_row A x l ∈ x :: l;
}.
Arguments order_by {_ _} before l.
Arguments bare_row {_ _} x l.

(** ** SQL building blocks *)

(** [LIMIT n]: a negative bound is no bound. *)
Definition sql_limit {A} (n : Z) (l : list A) : list A :=
  if n <? 0 then l else take (Z.to_nat n) l.

(** [SUBSTR(s, 1, n)] *)
Definition substr1 (n : nat) (s : string) : string := String.substring 0 n s.

(** [GROUP BY key]: one group per distinct key, each group the rows of
    that key in scan order. *)
Definition group_by {A K} `{EqDecision K} (key : A → K) (rows : list A) : list (list A) :=
  (λ k, filter (λ r, key r = k) rows) <$> remove_dups (key <$> rows).

(** One output row per group: [f] receives the row supplying the bare
    columns and [COUNT( * )]. *)
Definition aggregate `{Engine} {A B} (f : A → Z → B) (g : list A) : list B :=
  match g with
  | [] => []
  | x :: l => [f (bare_row x l) (Z.of_nat (length g))]
  end.

(** [ORDER BY col DESC] on an INTEGER column. *)
Definition desc_Z {A} (col : A → Z) (x y : A) : bool := col y <=? col x.

(** [ORDER BY col DESC] on a TEXT column (binary collation). *)
Definition desc_text {A} (col : A → string) (x y : A) : bool :=
  String.leb (col y) (col x).

#[global] Instance result_ret : MRet result := λ A a, Ok a.
#[global] Instance result_bind : MBind result := λ A B k r, rbind r k.

(** A scalar subquery [(SELECT col FROM tbl WHERE id = i)]: the column of
    the first matching row, NULL when there is none. *)
Definition scalar_subquery {A B} (col : A → B) (id_of : A → Z) (rows : list A) (i : Z)
  : option B :=
  col <$> find (λ r, id_of r =? i) rows.

(** SQLite folds the case of ASCII letters (only) when it compares the
    characters of a LIKE pattern. *)
Definition ascii_lower (c : Ascii.ascii) : Ascii.ascii :=
  let n := Ascii.nat_of_ascii c in
  if ((65 <=? n) && (n <=? 90))%nat then Ascii.ascii_of_nat (n + 32) else c.

(** [s LIKE p] without ESCAPE: [%] matches any run of characters, [_] any
    single character, every other character itself up to ASCII case. *)
Fixpoint like (p : string) : string → bool :=
  match p with
  | EmptyString => λ s, match s with EmptyString => true | _ => false end
  | String c p' =>
      if Ascii.eqb c "%"%char then
        fix any_run (s : string) : bool :=
          like p' s ||
          match s with
          | EmptyString => false
          | String _ s' => any_run s'
          end
      else if Ascii.eqb c "_"%char then
        λ s, match s with
             | EmptyString => false
             | String _ s' => like p' s'
             end
      else
        λ s, match s with
             | EmptyString => false
             | String d s' => Ascii.eqb (ascii_lower c) (ascii_lower d) && like p' s'
             end
  end.

(** The parameter [f"%{entity_name}%"]. *)
Definition contains_pattern (entity_name : string) : string :=
  "%" +:+ entity_name +:+ "%".

(** ** Python building blocks *)

(** [l[:n]]: a negative bound counts from the end. *)
Definition py_slice_to {A} (n : Z) (l : list A) : list A :=
  if n <? 0 then take (length l - Z.to_nat (- n)) l else take (Z.to_nat n) l.

(** A stable sort: [before x y] says that [x] may precede [y]; an element
    stays in front of the later elements it ties with. *)
Fixpoint insert_by {A} (before : A → A → bool) (x : A) (l : list A) : list A :=
  match l with
  | [] => [x]
  | y :: l' => if before x y then x :: l else y :: insert_by before x l'
  end.

Definition stable_sort {A} (before : A → A → bool) (l : list A) : list A :=
  foldr (insert_by before) [] l.

(** [list.sort(key=..., reverse=True)] on string keys: descending and
    stable. *)
Definition py_sort_desc {A} (key : A → string) (l : list A) : list A :=
  stable_sort (λ x y, String.leb (key y) (key x)) l.

(** [x or d] on an optional string: NULL and the empty string are falsy. *)
Definition py_or (x : option string) (d : string) : string :=
  match x with
  | Some (String c s) => String c s
  | _ => d
  end.

(** [f"{ty}:{i}"] *)
Definition placeholder (ty : string) (i : Z) : string :=
  ty +:+ ":" +:+ pretty i.

(** ** Rows returned to the caller ([dict(r)] of each fetched row) *)

Record EntityCount := {
  entity : string;
  entity_type : string;
  ref_count : Z;
}.

Record EntityRef := {
  ref_entity : string;
  refs : Z;
}.

Record LabeledRelation := {
  from_type : string;
  from_id : Z;
  to_type : string;
  to_id : Z;
  relation : string;
  from_label : option string;
  to_label : option string;
}.

Record CoOccurrence := {
  entity_a : string;
  type_a : string;
  entity_b : string;
  type_b : string;
  shared_sources : Z;
}.

Record TimelineEntry := {
  tl_id : Z;
  tl_created_at : string;
  tl_summary : string;
  tl_type : string;
}.

Record SourceRow := {
  src_entity_type : string;
  source_type : string;
  source_id : Z;
  context : option string;
}.

Record DetailRelation := {
  dr_from_type : string;
  dr_from_id : Z;
  dr_to_type : string;
  dr_to_id : Z;
  dr_relation : string;
}.

Record CoRow := {
  co_entity : string;
  co_entity_type : string;
  shared : Z;
}.

#[global] Instance CoRow_eq_dec : EqDecision CoRow.
Proof. solve_decision. Defined.

Record EntityDetail := {
  detail_entity : string;
  detail_sources : list SourceRow;
  detail_relations : list DetailRelation;
  detail_co_occurring : list CoRow;
}.

(** ** The statements of [MemoryDB] *)

Section Statements.
Context `{Engine}.

Definition table_present {A} (t : option (list A)) : bool :=
  match t with
  | Some _ => true
  | None => false
  end.

(** [SELECT name FROM sqlite_master WHERE type='table'], as the set
    [{r["name"] for r in rows}]. *)
Definition table_names (st : Store) : gset string :=
  (if table_present (sessions st) then {["sessions"]} else ∅) ∪
  (if table_present (knowledge st) then {["knowledge"]} else ∅) ∪
  (if table_present (facts st) then {["facts"]} else ∅) ∪
  (if table_present (entity_metadata st) then {["entity_metadata"]} else ∅) ∪
  (if table_present (entry_relations st) then {["entry_relations"]} else ∅) ∪
  (if memory_fts st then {["memory_fts"]} else ∅).

(** [SELECT COUNT( * ) as c FROM {tbl}] *)
Definition sql_count (tbl : string) (st : Store) : result Z :=
  if String.eqb tbl "sessions" then
    rows ← from_table tbl (sessions st); mret (Z.of_nat (length rows))
  else if String.eqb tbl "knowledge" then
    rows ← from_table tbl (knowledge st); mret (Z.of_nat (length rows))
  else if String.eqb tbl "facts" then
    rows ← from_table tbl (facts st); mret (Z.of_nat (length rows))
  else if String.eqb tbl "entity_metadata" then
    rows ← from_table tbl (entity_metadata st); mret (Z.of_nat (length rows))
  else if String.eqb tbl "entry_relations" then
    rows ← from_table tbl (entry_relations st); mret (Z.of_nat (length rows))
  else Raise (OperationalError tbl).

(** [SELECT entity, entity_type, COUNT( * ) as ref_count FROM entity_metadata
     GROUP BY entity, entity_type ORDER BY ref_count DESC LIMIT ?] *)
Definition select_entity_counts (limit : Z) (ems : list EntityMention) : list EntityCount :=
  sql_limit limit
    (order_by (desc_Z ref_count)
      (group_by (λ em, (em_entity em, em_entity_type em)) ems ≫=
         aggregate (λ em c,
           {| entity := em_entity em; entity_type := em_entity_type em;
              ref_count := c |}))).

Definition sql_entity_counts (limit : Z) (st : Store) : result (list EntityCount) :=
  ems ← from_table "entity_metadata" (entity_metadata st);
  mret (select_entity_counts limit ems).

(** The CASE expression of [get_relations] for one endpoint. *)
Definition relation_label (ss : list Session) (ks : list Knowledge) (fs : list Fact)
    (ty : string) (i : Z) : option string :=
  if String.eqb ty "session" then
    scalar_subquery (λ s, substr1 60 (s_summary s)) s_id ss i
  else if String.eqb ty "knowledge" then
    scalar_subquery k_area k_id ks i
  else if String.eqb ty "fact" then
    scalar_subquery (λ f, substr1 60 (f_fact f)) f_id fs i
  else None.

Definition label_relation (ss : list Session) (ks : list Knowledge) (fs : list Fact)
    (er : RelationEdge) : LabeledRelation :=
  {| from_type := er_from_type er; from_id := er_from_id er;
     to_type := er_to_type er; to_id := er_to_id er;
     relation := er_relation er;
     from_label := relation_label ss ks fs (er_from_type er) (er_from_id er);
     to_label := relation_label ss ks fs (er_to_type er) (er_to_id er) |}.

(** The statement of [get_relations]:
    [SELECT er.from_type, ..., CASE ... END as from_label, CASE ... END as
     to_label FROM entry_relations er ORDER BY er.created_at DESC LIMIT 100] *)
Definition select_relations (ers : list RelationEdge) (ss : list Session)
    (ks : list Knowledge) (fs : list Fact) : list LabeledRelation :=
  sql_limit 100 (label_relation ss ks fs <$> order_by (desc_text er_created_at) ers).

Definition sql_relations (st : Store) : result (list LabeledRelation) :=
  ers ← from_table "entry_relations" (entry_relations st);
  ss ← from_table "sessions" (sessions st);
  ks ← from_table "knowledge" (knowledge st);
  fs ← from_table "facts" (facts st);
  mret (select_relations ers ss ks fs).

(** [entity_metadata a JOIN entity_metadata b ON a.source_type =
     b.source_type AND a.source_id = b.source_id AND a.id < b.id] *)
Definition co_join (ems : list EntityMention) : list (EntityMention * EntityMention) :=
  a ← ems;
  b ← filter (λ b, em_source_type a = em_source_type b
                   ∧ em_source_id a = em_source_id b
                   ∧ em_id a < em_id b) ems;
  [(a, b)].

(** The output row of a group of joined pairs. *)
Definition co_occurrence_row (ab : EntityMention * EntityMention) (c : Z) : CoOccurrence :=
  {| entity_a := em_entity ab.1; type_a := em_entity_type ab.1;
     entity_b := em_entity ab.2; type_b := em_entity_type ab.2;
     shared_sources := c |}.

(** The statement of [get_co_occurrences]:
    [SELECT a.entity as entity_a, a.entity_type as type_a, b.entity as
     entity_b, b.entity_type as type_b, COUNT( * ) as shared_sources
     FROM ... GROUP BY a.entity, b.entity HAVING shared_sources >= 2
     ORDER BY shared_sources DESC LIMIT ?] *)
Definition select_co_occurrences (limit : Z) (ems : list EntityMention) : list CoOccurrence :=
  sql_limit limit
    (order_by (desc_Z shared_sources)
      (filter (λ r, 2 ≤ shared_sources r)
        (group_by (λ ab, (em_entity ab.1, em_entity ab.2)) (co_join ems) ≫=
           aggregate co_occurrence_row))).

Definition sql_co_occurrences (limit : Z) (st : Store) : result (list CoOccurrence) :=
  ems ← from_table "entity_metadata" (entity_metadata st);
  mret (select_co_occurrences limit ems).

(** [SELECT id, created_at, summary, 'session' as type] *)
Definition session_entry (s : Session) : TimelineEntry :=
  {| tl_id := s_id s; tl_created_at := s_created_at s;
     tl_summary := s_summary s; tl_type := "session" |}.

(** [SELECT id, updated_at as created_at, area || ': ' || summary as
     summary, 'knowledge' as type] *)
Definition knowledge_entry (k : Knowledge) : TimelineEntry :=
  {| tl_id := k_id k; tl_created_at := k_updated_at k;
     tl_summary := k_area k +:+ ": " +:+ k_summary k; tl_type := "knowledge" |}.

(** The two statements of [get_timeline]. *)
Definition sql_timeline_sessions (limit : Z) (st : Store) : result (list TimelineEntry) :=
  ss ← from_table "sessions" (sessions st);
  mret (sql_limit limit (session_entry <$> order_by (desc_text s_created_at) ss)).

Definition sql_timeline_knowledge (limit : Z) (st : Store) : result (list TimelineEntry) :=
  ks ← from_table "knowledge" (knowledge st);
  mret (sql_limit limit (knowledge_entry <$> order_by (desc_text k_updated_at) ks)).

(** The CASE expression of [get_entity_detail]. *)
Definition source_context (ss : list Session) (ks : list Knowledge) (fs : list Fact)
    (ty : string) (i : Z) : option string :=
  if String.eqb ty "session" then
    scalar_subquery (λ s, substr1 80 (s_summary s)) s_id ss i
  else if String.eqb ty "knowledge" then
    scalar_subquery (λ k, k_area k +:+ ": " +:+ substr1 60 (k_summary k)) k_id ks i
  else if String.eqb ty "fact" then
    scalar_subquery (λ f, substr1 80 (f_fact f)) f_id fs i
  else None.

Definition source_row (ss : list Session) (ks : list Knowledge) (fs : list Fact)
    (em : EntityMention) : SourceRow :=
  {| src_entity_type := em_entity_type em;
     source_type := em_source_type em;
     source_id := em_source_id em;
     context := source_context ss ks fs (em_source_type em) (em_source_id em) |}.

(** The "Sources" statement of [get_entity_detail]:
    [SELECT em.entity_type, em.source_type, em.source_id, CASE ... END as
     context FROM entity_metadata em WHERE em.entity LIKE ?
     ORDER BY em.created_at DESC] *)
Definition select_detail_sources (entity_name : string) (ems : list EntityMention)
    (ss : list Session) (ks : list Knowledge) (fs : list Fact) : list SourceRow :=
  source_row ss ks fs
    <$> order_by (desc_text em_created_at)
          (filter (λ em, like (contains_pattern entity_name) (em_entity em)) ems).

Definition sql_detail_sources (entity_name : string) (st : Store) : result (list SourceRow) :=
  ems ← from_table "entity_metadata" (entity_metadata st);
  ss ← from_table "sessions" (sessions st);
  ks ← from_table "knowledge" (knowledge st);
  fs ← from_table "facts" (facts st);
  mret (select_detail_sources entity_name ems ss ks fs).

(** The WHERE clause that [get_entity_detail] assembles from its sources:
    a disjunction, over the sources, of
    [(from_type='T' AND from_id=I) OR (to_type='T' AND to_id=I)].
    The text is read as this condition, which is its meaning when no
    source type contains a quote character. *)
Definition source_conds (srcs : list SourceRow) (er : RelationEdge) : Prop :=
  Exists (λ s, (er_from_type er = source_type s ∧ er_from_id er = source_id s)
               ∨ (er_to_type er = source_type s ∧ er_to_id er = source_id s)) srcs.

#[global] Instance source_conds_dec srcs er : Decision (source_conds srcs er).
Proof. unfold source_conds. apply _. Defined.

(** The "Relations" statement of [get_entity_detail]. *)
Definition sql_detail_relations (srcs : list SourceRow) (st : Store)
  : result (list DetailRelation) :=
  ers ← from_table "entry_relations" (entry_relations st);
  mret (sql_limit 20
    ((λ er, {| dr_from_type := er_from_type er; dr_from_id := er_from_id er;
               dr_to_type := er_to_type er; dr_to_id := er_to_id er;
               dr_relation := er_relation er |})
       <$> filter (source_conds srcs) ers)).

(** The join of the "Co-occurring" statement, with its WHERE clause. *)
Definition detail_join (entity_name : string) (ems : list EntityMention)
  : list (EntityMention * EntityMention) :=
  filter (λ ab, like (contains_pattern entity_name) (em_entity ab.1))
    (a ← ems;
     b ← filter (λ b, em_source_type a = em_source_type b
                      ∧ em_source_id a = em_source_id b
                      ∧ em_entity a ≠ em_entity b) ems;
     [(a, b)]).

(** The "Co-occurring" statement of [get_entity_detail]:
    [SELECT DISTINCT b.entity, b.entity_type, COUNT( * ) as shared FROM ...
     WHERE a.entity LIKE ? GROUP BY b.entity, b.entity_type
     ORDER BY shared DESC LIMIT 20] *)
Definition select_detail_co_occurring (entity_name : string) (ems : list EntityMention)
  : list CoRow :=
  sql_limit 20
    (order_by (desc_Z shared)
      (remove_dups
        (group_by (λ ab, (em_entity ab.2, em_entity_type ab.2))
                  (detail_join entity_name ems) ≫=
           aggregate (λ ab c,
             {| co_entity := em_entity ab.2; co_entity_type := em_entity_type ab.2;
                shared := c |})))).

Definition sql_detail_co_occurring (entity_name : string) (st : Store)
  : result (list CoRow) :=
  ems ← from_table "entity_metadata" (entity_metadata st);
  mret (select_detail_co_occurring entity_name ems).

End Statements.

(** ** The methods of [MemoryDB] *)

Section Methods.
Context `{Engine}.

Definition _ensure_tables_exist (st : Store) : gmap string bool :=
  let names := table_names st in
  list_to_map
    [ ("sessions", bool_decide ("sessions" ∈ names));
      ("knowledge", bool_decide ("knowledge" ∈ names));
      ("facts", bool_decide ("facts" ∈ names));
      ("entity_metadata", bool_decide ("entity_metadata" ∈ names));
      ("entry_relations", bool_decide ("entry_relations" ∈ names));
      ("memory_fts", bool_decide ("memory_fts" ∈ names)) ].

(** The object that [MemoryDB(db_path)] builds over an existing file. *)
Definition opened (path : string) (st : Store) : MemoryDB :=
  {| db_path := path; conn := st; tables := _ensure_tables_exist st |}.

(** [MemoryDB.__init__], over a file system that maps a path to the
    database stored there. *)
Definition MemoryDB_init (fs : gmap string Store) (path : string) : result MemoryDB :=
  match fs !! path with
  | None => Raise (FileNotFoundError path)
  | Some st => Ok (opened path st)
  end.

Definition _has_entities : M bool := tables_get "entity_metadata".

Definition _has_relations : M bool := tables_get "entry_relations".

Fixpoint get_stats_loop (tbls : list string) (stats : gmap string Z) : M (gmap string Z) :=
  match tbls with
  | [] => mret stats
  | tbl :: rest =>
      present ← tables_get tbl;
      c ← (if present : bool then execute (sql_count tbl) else mret 0);
      get_stats_loop rest (<[tbl := c]> stats)
  end.

Definition get_stats : M (gmap string Z) :=
  get_stats_loop
    ["sessions"; "knowledge"; "facts"; "entity_metadata"; "entry_relations"] ∅.

(** [grouped[r["entity_type"]].append({...})] on a [defaultdict(list)] *)
Definition grouped_append (grouped : gmap string (list EntityRef)) (r : EntityCount)
  : gmap string (list EntityRef) :=
  <[entity_type r :=
      default [] (grouped !! entity_type r)
        ++ [{| ref_entity := entity r; refs := ref_count r |}]]> grouped.

Definition get_entities (limit : Z) : M (gmap string (list EntityRef)) :=
  has ← _has_entities;
  if negb has then mret ∅
  else
    rows ← execute (sql_entity_counts limit);
    mret (foldl grouped_append ∅ rows).

Definition get_top_entities (limit : Z) : M (list EntityCount) :=
  has ← _has_entities;
  if negb has then mret []
  else execute (sql_entity_counts limit).

Definition get_relations : M (list LabeledRelation) :=
  has ← _has_relations;
  if negb has then mret []
  else execute sql_relations.

Definition get_co_occurrences (limit : Z) : M (list CoOccurrence) :=
  has ← _has_entities;
  if negb has then mret []
  else execute (sql_co_occurrences limit).

Definition get_timeline (limit : Z) : M (list TimelineEntry) :=
  has_s ← tables_get "sessions";
  entries ← (if has_s : bool then execute (sql_timeline_sessions limit) else mret []);
  has_k ← tables_get "knowledge";
  rows ← (if has_k : bool then execute (sql_timeline_knowledge limit) else mret []);
  let entries := entries ++ rows in
  mret (py_slice_to limit (py_sort_desc tl_created_at entries)).

Definition get_entity_detail (entity_name : string) : M EntityDetail :=
  has ← _has_entities;
  if negb has then
    mret {| detail_entity := entity_name; detail_sources := [];
            detail_relations := []; detail_co_occurring := [] |}
  else
    srcs ← execute (sql_detail_sources entity_name);
    has_r ← _has_relations;
    rels ← (if has_r && negb (bool_decide (srcs = []))
            then execute (sql_detail_relations srcs) else mret []);
    co_rows ← execute (sql_detail_co_occurring entity_name);
    mret {| detail_entity := entity_name; detail_sources := srcs;
            detail_relations := rels; detail_co_occurring := co_rows |}.

End Methods.

(** ** The renderers: what they read from the derived rows *)

(** [rel.get("from_label") or f"{rel['from_type']}:{rel['from_id']}"] *)
Definition from_lbl (rel : LabeledRelation) : string :=
  py_or (from_label rel) (placeholder (from_type rel) (from_id rel)).

(** [rel.get("to_label") or f"{rel['to_type']}:{rel['to_id']}"] *)
Definition to_lbl (rel : LabeledRelation) : string :=
  py_or (to_label rel) (placeholder (to_type rel) (to_id rel)).

(** [s.get("context") or f"{s['source_type']}:{s['source_id']}"] *)
Definition ctx (s : SourceRow) : string :=
  py_or (context s) (placeholder (source_type s) (source_id s)).


Module RichRenderer.

(** The rows added to the "Relations" table by [render_graph]. *)
Definition relation_rows (relations : list LabeledRelation)
  : list (string * string * string) :=
  (λ rel, (substr1 35 (from_lbl rel), relation rel, substr1 35 (to_lbl rel)))
    <$> take 30 relations.

End RichRenderer.

Module PlainRenderer.

(** The rows handed to [_table] by [render_graph]. *)
Definition relation_rows (relations : list LabeledRelation)
  : list (string * string * string) :=
  (λ rel, (substr1 30 (from_lbl rel), relation rel, substr1 30 (to_lbl rel)))
    <$> take 30 relations.

End PlainRenderer.

(** ** A concrete engine *)

(** Ties keep scan order and the bare columns come from the last row of
    the group. *)
Definition last_row {A} (x : A) (l : list A) : A := List.last l x.

#[global, refine] Instance scan_engine : Engine :=
  {| order_by := @stable_sort; bare_row := @last_row |}.
Proof.
  - intros A before l.
    assert (Hins : ∀ x l', insert_by before x l' ≡ₚ x :: l').
    { intros x l'. induction l' as [|y l' IH]; simpl; [done|].
      destruct (before x y); [done|]. rewrite IH. apply Permutation_swap. }
    induction l as [|x l IH]; simpl; [done|].
    rewrite Hins. by f_equiv.
  - intros A before Htotal l.
    assert (Hhd : ∀ x a l', before a x = true → HdRel (λ x y, before x y = true) a l' →
                            HdRel (λ x y, before x y = true) a (insert_by before x l')).
    { intros x a l' Hax Hal. destruct l' as [|y l']; simpl.
      - by constructor.
      - destruct (before x y); constructor; [done|]. by inversion Hal. }
    assert (Hins : ∀ x l', Sorted (λ x y, before x y = true) l' →
                           Sorted (λ x y, before x y = true) (insert_by before x l')).
    { intros x l' Hs. induction Hs as [|y l' Hs IH Hy]; simpl.
      - by repeat constructor.
      - destruct (before x y) eqn:Hxy.
        + constructor; [by constructor|by constructor].
        + constructor; [done|]. apply Hhd; [|done].
          destruct (Htotal x y) as [Hc|Hc]; [congruence|done]. }
    induction l as [|x l IH]; simpl; [constructor|]. by apply Hins.
  - intros A x l. unfold last_row. revert x.
    induction l as [|y l IH]; intros x; simpl.
    + apply list_elem_of_here.
    + destruct l as [|z l]; [apply list_elem_of_further, list_elem_of_here|].
      specialize (IH x). apply elem_of_cons in IH as [->|IH].
      * apply list_elem_of_here.
      * by do 2 apply list_elem_of_further.
Defined.

(** ** Notions in which the properties are stated *)

(** The rows of a group: what [COUNT( * )] counts under [GROUP BY key]. *)
Definition group_count {A K} `{EqDecision K} (key : A → K) (rows : list A) (k : K) : Z :=
  Z.of_nat (length (filter (λ r, key r = k) rows)).

Definition mentions (st : Store) : list EntityMention :=
  default [] (entity_metadata st).

(** The number of [entity_metadata] rows of a (name, type) pair. *)
Definition mention_count (st : Store) (e ty : string) : Z :=
  Z.of_nat (length (filter (λ em, em_entity em = e ∧ em_entity_type em = ty) (mentions st))).

(** The number of joined mention pairs of a pair of names, whatever the
    entity types. *)
Definition pair_count (st : Store) (ea eb : string) : Z :=
  Z.of_nat (length (filter (λ ab, em_entity ab.1 = ea ∧ em_entity ab.2 = eb)
                           (co_join (mentions st)))).

(** The sources, as (source type, source id) pairs, that mention a name. *)
Definition sources_of (st : Store) (e : string) : list (string * Z) :=
  (λ em, (em_source_type em, em_source_id em))
    <$> filter (λ em, em_entity em = e) (mentions st).

(** The number of distinct sources shared by two names. *)
Definition shared_source_count (st : Store) (ea eb : string) : Z :=
  Z.of_nat (length (remove_dups (filter (λ s, s ∈ sources_of st eb) (sources_of st ea)))).

(** The row that a (source type, source id) pair refers to exists. *)
Definition source_row_exists (st : Store) (ty : string) (i : Z) : Prop :=
  (ty = "session" ∧ ∃ s, s ∈ default [] (sessions st) ∧ s_id s = i)
  ∨ (ty = "knowledge" ∧ ∃ k, k ∈ default [] (knowledge st) ∧ k_id k = i)
  ∨ (ty = "fact" ∧ ∃ f, f ∈ default [] (facts st) ∧ f_id f = i).






(** A method leaves the object as it found it, and a second call on the
    object it leaves returns what the first call returned. *)
Definition mutation_free {A} (m : M A) : Prop :=
  ∀ self, (m self).2 = self.



(** What bounds a label of [get_relations]: 60 characters, except that a
    knowledge endpoint is labelled with the whole area name. *)
Definition relation_label_bound (st : Store) (ty : string) (i : Z) (lbl : option string)
  : Prop :=
  ∀ l, lbl = Some l →
    if decide (ty = "knowledge")
    then ∃ k, k ∈ default [] (knowledge st) ∧ k_id k = i ∧ l = k_area k
    else (String.length l ≤ 60)%nat.

(** What bounds a context label of [get_entity_detail]: 80 characters,
    except that a knowledge source is labelled with the whole area name
    followed by ": " and at most 60 characters of the summary. *)
Definition context_bound (st : Store) (ty : string) (i : Z) (lbl : option string) : Prop :=
  ∀ l, lbl = Some l →
    if decide (ty = "knowledge")
    then ∃ k, k ∈ default [] (knowledge st) ∧ k_id k = i
              ∧ l = k_area k +:+ ": " +:+ substr1 60 (k_summary k)
              ∧ (String.length l ≤ String.length (k_area k) + 62)%nat
    else (String.length l ≤ 80)%nat.

(** What [get_entity_detail] starts from. *)
Definition empty_detail (entity_name : string) : EntityDetail :=
  {| detail_entity := entity_name; detail_sources := [];
     detail_relations := []; detail_co_occurring := [] |}.

(** ** Example stores *)

Definition mention (i : Z) (e ty sty : string) (sid : Z) : EntityMention :=
  {| em_id := i; em_entity := e; em_entity_type := ty;
     em_source_type := sty; em_source_id := sid;
     em_created_at := "2025-01-01 00:00:00" |}.

Definition store_of_mentions (ems : list EntityMention) : Store :=
  {| sessions := Some []; knowledge := Some []; facts := Some [];
     entity_metadata := Some ems; entry_relations := Some [];
     memory_fts := false |}.

(** "auth" and "jwt" both mentioned in knowledge#1 and knowledge#2; "auth"
    was recorded first in knowledge#1, "jwt" first in knowledge#2. *)
Definition store_interleaved : Store :=
  store_of_mentions
    [ mention 1 "auth" "concept" "knowledge" 1;
      mention 2 "jwt" "concept" "knowledge" 1;
      mention 3 "jwt" "concept" "knowledge" 2;
      mention 4 "auth" "concept" "knowledge" 2 ].

(** The same mentions, "auth" recorded before "jwt" in both sources. *)
Definition store_auth_first : Store :=
  store_of_mentions
    [ mention 1 "auth" "concept" "knowledge" 1;
      mention 2 "jwt" "concept" "knowledge" 1;
      mention 3 "auth" "concept" "knowledge" 2;
      mention 4 "jwt" "concept" "knowledge" 2 ].

(** Two sources, each mentioning "auth" as a concept and as a file. *)
Definition store_same_name : Store :=
  store_of_mentions
    [ mention 1 "auth" "concept" "knowledge" 1;
      mention 2 "auth" "file" "knowledge" 1;
      mention 3 "auth" "concept" "knowledge" 2;
      mention 4 "auth" "file" "knowledge" 2 ].

(** Four sources mentioning "auth" and "jwt": "auth" first in two of
    them, "jwt" first in the other two. *)
Definition store_both_orders : Store :=
  store_of_mentions
    [ mention 1 "auth" "concept" "knowledge" 1;
      mention 2 "jwt" "concept" "knowledge" 1;
      mention 3 "auth" "concept" "knowledge" 2;
      mention 4 "jwt" "concept" "knowledge" 2;
      mention 5 "jwt" "concept" "knowledge" 3;
      mention 6 "auth" "concept" "knowledge" 3;
      mention 7 "jwt" "concept" "knowledge" 4;
      mention 8 "auth" "concept" "knowledge" 4 ].

(** "auth" and "jwt" share two sources under different entity types. *)
Definition store_mixed_types : Store :=
  store_of_mentions
    [ mention 1 "auth" "concept" "knowledge" 1;
      mention 2 "jwt" "package" "knowledge" 1;
      mention 3 "auth" "file" "knowledge" 2;
      mention 4 "jwt" "concept" "knowledge" 2 ].


(** [entity_metadata] exists, [sessions] does not. *)
Definition store_no_sessions : Store :=
  {| sessions := None; knowledge := Some []; facts := Some [];
     entity_metadata := Some []; entry_relations := Some [];
     memory_fts := false |}.

(** A knowledge area whose name has 65 characters, an edge that starts
    from it and a mention recorded in it. *)
Definition long_area : string :=
  "authentication-and-authorization-design-notes-for-the-api-gateway".

Definition store_long_area : Store :=
  {| sessions := Some [ {| s_id := 1; s_created_at := "2025-01-02 10:00:00";
                           s_summary := "Reviewed the gateway" |} ];
     knowledge := Some [ {| k_id := 1; k_area := long_area;
                            k_summary := "Tokens are validated at the edge";
                            k_updated_at := "2025-01-03 09:00:00" |} ];
     facts := Some [];
     entity_metadata := Some [ mention 1 "gateway" "concept" "knowledge" 1 ];
     entry_relations :=
       Some [ {| er_from_type := "knowledge"; er_from_id := 1;
                 er_to_type := "session"; er_to_id := 1;
                 er_relation := "documents";
                 er_created_at := "2025-01-03 09:30:00" |} ];
     memory_fts := false |}.

(** An edge from session#5 to fact#9, where fact#9 has been deleted. *)
Definition edge_5_9 : RelationEdge :=
  {| er_from_type := "session"; er_from_id := 5;
     er_to_type := "fact"; er_to_id := 9;
     er_relation := "established";
     er_created_at := "2025-02-01 12:00:00" |}.

Definition store_dangling : Store :=
  {| sessions := Some [ {| s_id := 5; s_created_at := "2025-02-01 11:00:00";
                           s_summary := "Chose JWT for the API" |} ];
     knowledge := Some [];
     facts := Some [ {| f_id := 8; f_fact := "Tokens expire after one hour" |} ];
     entity_metadata := None;
     entry_relations := Some [ edge_5_9 ];
     memory_fts := false |}.


(** ** Further notions *)

(** A call returned. *)
Definition is_ok {A} (r : result A) : Prop :=
  match r with
  | Ok _ => True
  | Raise _ => False
  end.

(** [{"entity": r["entity"], "refs": r["ref_count"]}] *)
Definition entity_ref (r : EntityCount) : EntityRef :=
  {| ref_entity := entity r; refs := ref_count r |}.

(** A count column never increases along the list. *)
Definition descending {A} (col : A → Z) (l : list A) : Prop :=
  Sorted (λ x y, col y ≤ col x) l.

(** A timestamp column never increases along the list. *)
Definition newest_first_by {A} (col : A → string) (l : list A) : Prop :=
  Sorted (λ x y, String.leb (col y) (col x) = true) l.

(** The five tables that [get_stats] counts. *)
Definition counted_tables : list string :=
  ["sessions"; "knowledge"; "facts"; "entity_metadata"; "entry_relations"].

(** The number of rows of a table, 0 for a table that is absent. *)
Definition row_count {A} (t : option (list A)) : Z :=
  Z.of_nat (length (default [] t)).

(** The source tables that the CASE expressions name all exist. *)
Definition source_tables_present (st : Store) : Prop :=
  table_present (sessions st) ∧ table_present (knowledge st) ∧ table_present (facts st).

#[global] Instance source_tables_present_dec st : Decision (source_tables_present st).
Proof. unfold source_tables_present. apply _. Defined.


(** An edge starts or ends at the source of a source row. *)
Definition touches (s : SourceRow) (r : DetailRelation) : Prop :=
  (dr_from_type r = source_type s ∧ dr_from_id r = source_id s)
  ∨ (dr_to_type r = source_type s ∧ dr_to_id r = source_id s).

#[global] Instance touches_dec s r : Decision (touches s r).
Proof. unfold touches. apply _. Defined.

(** A text with its ASCII capitals turned into small letters. *)
Fixpoint string_lower (s : string) : string :=
  match s with
  | EmptyString => EmptyString
  | String c s' => String (ascii_lower c) (string_lower s')
  end.

(** A store to explore: "auth" and "jwt" mentioned in session#5, "Auth0"
    in fact#8, and the edge from session#5 to the deleted fact#9. *)
Definition explore_sessions : list Session :=
  [ {| s_id := 5; s_created_at := "2025-02-01 11:00:00";
       s_summary := "Chose JWT for the API" |} ].

Definition explore_facts : list Fact :=
  [ {| f_id := 8; f_fact := "Tokens expire after one hour" |} ].

Definition explore_mentions : list EntityMention :=
  [ mention 1 "auth" "concept" "session" 5;
    mention 2 "jwt" "concept" "session" 5;
    mention 3 "Auth0" "package" "fact" 8 ].

Definition store_explore : Store :=
  {| sessions := Some explore_sessions; knowledge := Some [];
     facts := Some explore_facts; entity_metadata := Some explore_mentions;
     entry_relations := Some [edge_5_9]; memory_fts := false |}.


(** The order of timestamps on a timeline: the later one first. *)
Definition later_first (x y : string) : Prop := String.leb y x = true.

#[global] Instance later_first_dec x y : Decision (later_first x y).
Proof. unfold later_first. apply _. Defined.


(** ** The views and the command line

    Of a renderer, what it asks of the database and in which order; the
    text it draws is not part of the model. Both renderers ask the same
    questions. *)

(** [render_stats]: [get_stats], [get_entities(limit=100)],
    [get_top_entities(limit=15)]. *)
Definition render_stats `{Engine} : M unit :=
  stats ← get_stats;
  entities ← get_entities 100;
  top ← get_top_entities 15;
  mret ().

(** [render_graph]: [get_entities(limit=50)]; without entities the view
    draws its empty state and returns; otherwise [get_relations] and
    [get_co_occurrences(limit=20)]. *)
Definition render_graph `{Engine} : M unit :=
  entities ← get_entities 50;
  if bool_decide (entities = ∅) then mret ()
  else
    relations ← get_relations;
    co_occ ← get_co_occurrences 20;
    mret ().

(** [render_timeline]: [get_timeline(limit=30)]. *)
Definition render_timeline `{Engine} : M unit :=
  entries ← get_timeline 30;
  mret ().

(** [render_explore]: [get_entity_detail(entity_name)]. *)
Definition render_explore `{Engine} (entity_name : string) : M unit :=
  detail ← get_entity_detail entity_name;
  mret ().

(** [render_full]: statistics, graph, timeline. *)
Definition render_full `{Engine} : M unit :=
  _ ← render_stats;
  _ ← render_graph;
  render_timeline.

(** The [choices] of the positional argument [command]. *)
Inductive Command := full | graph | timeline | stats | explore.

#[global] Instance Command_eq_dec : EqDecision Command.
Proof. solve_decision. Defined.

(** The namespace that [parser.parse_args()] returns. *)
Record Args := {
  arg_db : string;
  arg_command : Command;
  arg_entity : option string;
  arg_plain : bool;
}.

Inductive Renderer := RichRenderer_ | PlainRenderer_.

(** What a run of [main] does, in order; [Stderr] carries the message
    without the usage or remediation lines around it. *)
Inductive Event :=
  | Connected (path : string)
  | Stderr (msg : string)
  | Render (r : Renderer) (c : Command)
  | Closed.

(** How a run of [main] ends. *)
Inductive Status :=
  | Finished
  | Exit (code : Z)
  | Uncaught (e : exn).

(** [not args.entity] *)
Definition no_entity (entity : option string) : bool :=
  match entity with
  | Some (String _ _) => false
  | _ => true
  end.

(** The dispatch inside [try]. *)
Definition dispatch `{Engine} (args : Args) : M unit :=
  match arg_command args with
  | graph => render_graph
  | timeline => render_timeline
  | stats => render_stats
  | explore => render_explore (default "" (arg_entity args))
  | full => render_full
  end.

(** [main], after [parse_args]: [rich_available] is [RICH_AVAILABLE], [fs]
    maps a path to the database file stored there. A view raises only
    what one of its database calls raises: drawing is taken to succeed. *)
Definition main `{Engine} (rich_available : bool) (fs : gmap string Store) (args : Args)
  : list Event * Status :=
  if bool_decide (arg_command args = explore) && no_entity (arg_entity args) then
    ([Stderr "explore command requires an entity name"], Exit 2)
  else
    match MemoryDB_init fs (arg_db args) with
    | Raise e =>
        ([Stderr ("Error: Database not found: " +:+ arg_db args)], Exit 1)
    | Ok db =>
        if negb (default false (tables db !! "entity_metadata"))
           && bool_decide (arg_command args = graph ∨ arg_command args = explore)
        then
          ([Connected (arg_db args); Stderr "Entity metadata not initialized."], Exit 1)
        else
          let renderer :=
            if arg_plain args || negb rich_available then PlainRenderer_
            else RichRenderer_ in
          match run (dispatch args) db with
          | Ok _ =>
              ([Connected (arg_db args); Render renderer (arg_command args); Closed],
               Finished)
          | Raise e =>
              ([Connected (arg_db args); Render renderer (arg_command args); Closed],
               Uncaught e)
          end
    end.

(** ** [PlainRenderer._table]

    A cell is a string (every caller passes [str] values), a width is a
    Python int. What [_table] prints is the list of its lines; the flag
    says whether an [IndexError] (a row with too few cells) ended it. *)

(** [c * n]: no character for a negative [n]. *)
Definition str_repeat (c : Ascii.ascii) (n : Z) : string :=
  Nat.iter (Z.to_nat n) (String c) EmptyString.

(** [s.ljust(w)] *)
Definition ljust (w : Z) (s : string) : string :=
  s +:+ str_repeat " " (w - Z.of_nat (String.length s)).

(** [s[:w]]: a negative bound counts from the end. *)
Definition str_slice_to (w : Z) (s : string) : string :=
  if w <? 0 then String.substring 0 (String.length s - Z.to_nat (- w)) s
  else String.substring 0 (Z.to_nat w) s.

(** [sep.join(l)] *)
Fixpoint str_join (sep : string) (l : list string) : string :=
  match l with
  | [] => EmptyString
  | [x] => x
  | x :: l' => x +:+ sep +:+ str_join sep l'
  end.

(** [str(row[i])[:w].ljust(w) for i, w in enumerate(col_widths)], from
    index [i] on; [None] is the [IndexError] of [row[i]]. *)
Fixpoint table_cells (i : nat) (col_widths : list Z) (row : list string)
  : option (list string) :=
  match col_widths with
  | [] => Some []
  | w :: ws =>
      cell ← row !! i;
      rest ← table_cells (S i) ws row;
      Some (ljust w (str_slice_to w cell) :: rest)
  end.

(** The loop over the rows: the lines printed, and whether it raised. *)
Fixpoint table_rows (col_widths : list Z) (rows : list (list string)) : list string * bool :=
  match rows with
  | [] => ([], false)
  | row :: rows' =>
      match table_cells 0 col_widths row with
      | None => ([], true)
      | Some cells =>
          let '(lines, raised) := table_rows col_widths rows' in
          (("  " +:+ str_join "  " cells) :: lines, raised)
      end
  end.

(** [max((len(str(r[i])) for r in rows), default=4)] *)
Fixpoint max_cell_length (i : nat) (rows : list (list string)) : option Z :=
  match rows with
  | [] => Some 4
  | [r] => cell ← r !! i; Some (Z.of_nat (String.length cell))
  | r :: rows' =>
      cell ← r !! i;
      m ← max_cell_length i rows';
      Some (Z.max (Z.of_nat (String.length cell)) m)
  end.

(** The widths computed when [col_widths] is not given. *)
Fixpoint computed_widths (i : nat) (headers : list string) (rows : list (list string))
  : option (list Z) :=
  match headers with
  | [] => Some []
  | h :: hs =>
      m ← max_cell_length i rows;
      rest ← computed_widths (S i) hs rows;
      Some (Z.max (Z.of_nat (String.length h)) m + 2 :: rest)
  end.

(** [zip(headers, col_widths)] with each header padded to its column. *)
Fixpoint header_cells (headers : list string) (col_widths : list Z) : list string :=
  match headers, col_widths with
  | h :: hs, w :: ws => ljust w h :: header_cells hs ws
  | _, _ => []
  end.

Definition _table (headers : list string) (rows : list (list string))
    (col_widths : option (list Z)) : list string * bool :=
  let widths :=
    match col_widths with
    | None | Some [] => computed_widths 0 headers rows
    | Some ws => Some ws
    end in
  match widths with
  | None => ([], true)
  | Some ws =>
      let '(lines, raised) := table_rows ws rows in
      (("  " +:+ str_join "  " (header_cells headers ws))
       :: ("  " +:+ str_join "  " (str_repeat "-" <$> ws))
       :: lines, raised)
  end.

(** The width of a line of a table with these column widths. *)
Definition table_width (col_widths : list Z) : nat :=
  (2 + foldr (λ w n, Z.to_nat w + n) 0 col_widths + 2 * (length col_widths - 1))%nat.

(** The three checks of [main] before it picks a renderer: the explore
    command has an entity, the database file exists, and the graph and
    explore commands find the [entity_metadata] table. *)
Definition checks_pass (fs : gmap string Store) (args : Args) : Prop :=
  (arg_command args = explore → no_entity (arg_entity args) = false)
  ∧ ∃ st, fs !! arg_db args = Some st
          ∧ (arg_command args = graph ∨ arg_command args = explore →
             table_present (entity_metadata st)).

(** * Properties *)

(** ** The SQL building blocks *)

Section building_blocks.
Context `{Engine}.

Lemma sql_limit_sublist {A} n (l : list A) : sql_limit n l `sublist_of` l.
Proof. unfold sql_limit. destruct (n <? 0); [done|apply sublist_take]. Qed.

Lemma elem_of_sql_limit {A} n (l : list A) x : x ∈ sql_limit n l → x ∈ l.
Proof. intros Hx. eapply elem_of_sublist; [done|apply sql_limit_sublist]. Qed.

Lemma sql_limit_all {A} n (l : list A) :
  n < 0 ∨ Z.of_nat (length l) ≤ n → sql_limit n l = l.
Proof.
  intros Hn. unfold sql_limit. destruct (Z.ltb_spec n 0); [done|].
  apply take_ge. lia.
Qed.

Lemma sql_limit_nil {A} n : sql_limit n (@nil A) = [].
Proof. unfold sql_limit. destruct (n <? 0); [done|apply take_nil]. Qed.

Lemma sql_limit_take {A} n (l : list A) : 0 ≤ n → sql_limit n l = take (Z.to_nat n) l.
Proof. intros Hn. unfold sql_limit. by destruct (Z.ltb_spec n 0); [lia|]. Qed.

Lemma length_sql_limit {A} n (l : list A) :
  0 ≤ n → Z.of_nat (length (sql_limit n l)) ≤ n.
Proof. intros Hn. rewrite sql_limit_take, length_take by done. lia. Qed.

Lemma elem_of_order_by {A} (before : A → A → bool) l x :
  x ∈ order_by before l ↔ x ∈ l.
Proof. by rewrite order_by_perm. Qed.

Lemma length_order_by {A} (before : A → A → bool) l :
  length (order_by before l) = length l.
Proof. by rewrite order_by_perm. Qed.

Lemma order_by_nil {A} (before : A → A → bool) : order_by before [] = [].
Proof. apply Permutation_nil_r, order_by_perm. Qed.

Lemma order_by_singleton {A} (before : A → A → bool) x : order_by before [x] = [x].
Proof. apply Permutation_singleton_r, order_by_perm. Qed.

(** HAVING, ORDER BY, LIMIT keep rows of the grouped result that pass the
    HAVING clause, and all of them when the limit does not cut. *)
Lemma elem_of_having_order_limit {A} (P : A → Prop) `{∀ x, Decision (P x)}
    (before : A → A → bool) n l x :
  x ∈ sql_limit n (order_by before (filter P l)) → P x ∧ x ∈ l.
Proof.
  intros Hx%elem_of_sql_limit. by apply elem_of_order_by, list_elem_of_filter in Hx.
Qed.

Lemma having_order_limit_complete {A} (P : A → Prop) `{∀ x, Decision (P x)}
    (before : A → A → bool) n l x :
  n < 0 ∨ Z.of_nat (length l) ≤ n → x ∈ l → P x →
  x ∈ sql_limit n (order_by before (filter P l)).
Proof.
  intros Hn Hx HP. rewrite sql_limit_all.
  - by apply elem_of_order_by, list_elem_of_filter.
  - destruct Hn as [?|Hn]; [by left|right].
    rewrite length_order_by. pose proof (length_filter P l). lia.
Qed.

Lemma NoDup_having_order_limit {A B} (P : A → Prop) `{∀ x, Decision (P x)}
    (before : A → A → bool) (kof : A → B) n l :
  NoDup (kof <$> l) → NoDup (kof <$> sql_limit n (order_by before (filter P l))).
Proof.
  intros Hl. eapply sublist_NoDup; [|apply fmap_sublist, sql_limit_sublist].
  rewrite order_by_perm. eapply sublist_NoDup; [done|].
  apply fmap_sublist, sublist_filter.
Qed.

Section grouping.
Context {A B K : Type} `{EqDecision K} (key : A → K) (f : A → Z → B).

Lemma group_count_pos rows r : r ∈ rows → 1 ≤ group_count key rows (key r).
Proof.
  intros Hr. unfold group_count.
  assert (Hin : r ∈ filter (λ r', key r' = key r) rows)
    by by apply list_elem_of_filter.
  destruct (filter _ rows); [by apply elem_of_nil in Hin|simpl; lia].
Qed.

(** The group of a key that occurs yields exactly one row, built from a
    member of the group and the size of the group. *)
Lemma aggregate_group rows k :
  k ∈ key <$> rows →
  ∃ r, r ∈ rows ∧ key r = k
       ∧ aggregate f (filter (λ r, key r = k) rows) = [f r (group_count key rows k)].
Proof.
  intros (r0 & -> & Hr0)%list_elem_of_fmap. unfold aggregate, group_count.
  destruct (filter _ rows) as [|x l] eqn:Hg.
  - exfalso. by eapply (filter_nil_not_elem_of _ _ r0), Hr0.
  - pose proof (bare_row_member _ x l) as Hb.
    rewrite <- Hg in Hb. apply list_elem_of_filter in Hb as [Hk Hin]. eauto.
Qed.

Lemma elem_of_grouped rows y :
  y ∈ group_by key rows ≫= aggregate f →
  ∃ r, r ∈ rows ∧ y = f r (group_count key rows (key r)).
Proof.
  intros (g & Hy & Hg)%list_elem_of_bind.
  apply list_elem_of_fmap in Hg as (k & -> & Hk).
  rewrite elem_of_remove_dups in Hk.
  destruct (aggregate_group rows k Hk) as (r & Hr & <- & Heq).
  rewrite Heq in Hy. apply list_elem_of_singleton in Hy. eauto.
Qed.

Lemma grouped_complete rows r :
  r ∈ rows →
  ∃ r0, r0 ∈ rows ∧ key r0 = key r
        ∧ f r0 (group_count key rows (key r)) ∈ group_by key rows ≫= aggregate f.
Proof.
  intros Hr.
  assert (Hk : key r ∈ key <$> rows) by by apply list_elem_of_fmap_2.
  destruct (aggregate_group rows (key r) Hk) as (r0 & Hr0 & Hkey & Heq).
  exists r0. split_and!; [done..|].
  apply list_elem_of_bind. eexists. split; [|apply list_elem_of_fmap_2, elem_of_remove_dups, Hk].
  simpl. rewrite Heq. apply list_elem_of_here.
Qed.

(** One output row per distinct key. *)
Lemma grouped_keys (kof : B → K) rows :
  (∀ r c, kof (f r c) = key r) →
  kof <$> (group_by key rows ≫= aggregate f) = remove_dups (key <$> rows).
Proof.
  intros Hkof. unfold group_by. rewrite list_fmap_bind.
  assert (Hks : Forall (λ k, k ∈ key <$> rows) (remove_dups (key <$> rows))).
  { apply Forall_forall. intros k. by rewrite elem_of_remove_dups. }
  induction Hks as [|k ks Hk Hks IH]; [done|].
  rewrite bind_cons, fmap_app, IH. simpl.
  destruct (aggregate_group rows k Hk) as (r & _ & <- & ->). simpl.
  by rewrite Hkof.
Qed.

Lemma NoDup_grouped (kof : B → K) rows :
  (∀ r c, kof (f r c) = key r) →
  NoDup (kof <$> (group_by key rows ≫= aggregate f)).
Proof. intros Hkof. rewrite (grouped_keys kof) by done. apply NoDup_remove_dups. Qed.

Lemma length_grouped rows :
  length (group_by key rows ≫= aggregate f) = length (remove_dups (key <$> rows)).
Proof.
  unfold group_by. rewrite list_fmap_bind.
  assert (Hks : Forall (λ k, k ∈ key <$> rows) (remove_dups (key <$> rows))).
  { apply Forall_forall. intros k. by rewrite elem_of_remove_dups. }
  induction Hks as [|k ks Hk Hks IH]; [done|].
  rewrite bind_cons, length_app, IH. simpl.
  by destruct (aggregate_group rows k Hk) as (r & _ & _ & ->).
Qed.
End grouping.

End building_blocks.

(** ** Running a method on an opened database *)

Section opened.
Context `{Engine}.

(** The availability flags record which tables the file contains. *)
Lemma tables_opened path st :
  tables (opened path st) !! "sessions" = Some (table_present (sessions st))
  ∧ tables (opened path st) !! "knowledge" = Some (table_present (knowledge st))
  ∧ tables (opened path st) !! "facts" = Some (table_present (facts st))
  ∧ tables (opened path st) !! "entity_metadata" = Some (table_present (entity_metadata st))
  ∧ tables (opened path st) !! "entry_relations" = Some (table_present (entry_relations st)).
Proof.
  destruct st as [[?|] [?|] [?|] [?|] [?|] []]; vm_compute; done.
Qed.

(** The opened object, seen through its flags and its connection only. *)
Ltac abstract_opened path st :=
  let Hconn := fresh "Hconn" in
  destruct (tables_opened path st) as (Hts & Htk & Htf & Hte & Htr);
  assert (Hconn : conn (opened path st) = st) by done;
  revert Hts Htk Htf Hte Htr Hconn;
  generalize (opened path st);
  intros db Hts Htk Htf Hte Htr Hconn;
  unfold run, _has_entities, _has_relations, tables_get, execute,
    mbind, M_bind, mret, M_ret.

Lemma get_top_entities_opened path st limit :
  run (get_top_entities limit) (opened path st)
  = Ok (match entity_metadata st with
        | Some ems => select_entity_counts limit ems
        | None => []
        end).
Proof.
  unfold get_top_entities. abstract_opened path st.
  rewrite Hte. unfold sql_entity_counts.
  destruct (entity_metadata st) as [ems|] eqn:Hems; simpl; by rewrite ?Hconn, ?Hems.
Qed.

Lemma get_entities_opened path st limit :
  run (get_entities limit) (opened path st)
  = Ok (match entity_metadata st with
        | Some ems => foldl grouped_append ∅ (select_entity_counts limit ems)
        | None => ∅
        end).
Proof.
  unfold get_entities. abstract_opened path st.
  rewrite Hte. unfold sql_entity_counts.
  destruct (entity_metadata st) as [ems|] eqn:Hems; simpl; by rewrite ?Hconn, ?Hems.
Qed.

Lemma get_co_occurrences_opened path st limit :
  run (get_co_occurrences limit) (opened path st)
  = Ok (match entity_metadata st with
        | Some ems => select_co_occurrences limit ems
        | None => []
        end).
Proof.
  unfold get_co_occurrences. abstract_opened path st.
  rewrite Hte. unfold sql_co_occurrences.
  destruct (entity_metadata st) as [ems|] eqn:Hems; simpl; by rewrite ?Hconn, ?Hems.
Qed.

Lemma get_relations_opened path st :
  run get_relations (opened path st)
  = match entry_relations st with
    | Some _ => sql_relations st
    | None => Ok []
    end.
Proof.
  unfold get_relations. abstract_opened path st.
  rewrite Htr. destruct (entry_relations st); simpl; by rewrite ?Hconn.
Qed.

Lemma get_timeline_opened path st limit :
  run (get_timeline limit) (opened path st)
  = Ok (py_slice_to limit
          (py_sort_desc tl_created_at
             (sql_limit limit
                (session_entry <$> order_by (desc_text s_created_at) (default [] (sessions st)))
              ++ sql_limit limit
                (knowledge_entry <$> order_by (desc_text k_updated_at)
                   (default [] (knowledge st)))))).
Proof.
  unfold get_timeline. abstract_opened path st.
  rewrite Hts. unfold sql_timeline_sessions, sql_timeline_knowledge.
  destruct (sessions st) as [ss|] eqn:Hss; simpl; rewrite ?Hconn, ?Hss, Htk; simpl;
    destruct (knowledge st) as [ks|] eqn:Hks; simpl; rewrite ?Hconn, ?Hks; simpl.
    all: by rewrite ?order_by_nil, ?fmap_nil, ?sql_limit_nil.
Qed.

Lemma get_entity_detail_opened path st entity_name :
  run (get_entity_detail entity_name) (opened path st)
  = match entity_metadata st with
    | None => Ok (empty_detail entity_name)
    | Some _ =>
        srcs ← sql_detail_sources entity_name st;
        rels ← (if table_present (entry_relations st) && negb (bool_decide (srcs = []))
                then sql_detail_relations srcs st else Ok []);
        co_rows ← sql_detail_co_occurring entity_name st;
        mret {| detail_entity := entity_name; detail_sources := srcs;
                detail_relations := rels; detail_co_occurring := co_rows |}
    end.
Proof.
  unfold get_entity_detail. abstract_opened path st.
  unfold result_bind, rbind. rewrite Hte.
  destruct (entity_metadata st) as [ems|]; simpl; [|done]. rewrite Hconn.
  destruct (sql_detail_sources entity_name st) as [srcs|e]; [|done].
  rewrite Htr, ?Hconn. simpl.
  destruct (table_present (entry_relations st) && negb (bool_decide (srcs = []))); simpl;
    rewrite ?Hconn.
  - destruct (sql_detail_relations srcs st); [|done].
    rewrite ?Hconn. by destruct (sql_detail_co_occurring entity_name st).
  - by destruct (sql_detail_co_occurring entity_name st).
Qed.

End opened.

(** ** Entity groupings *)

Section entities.
Context `{Engine}.

Lemma select_entity_counts_spec limit ems r :
  r ∈ select_entity_counts limit ems →
  ∃ em, em ∈ ems ∧ entity r = em_entity em ∧ entity_type r = em_entity_type em
        ∧ ref_count r
          = Z.of_nat (length (filter (λ em', em_entity em' = entity r
                                             ∧ em_entity_type em' = entity_type r) ems)).
Proof.
  unfold select_entity_counts.
  intros Hr%elem_of_sql_limit%elem_of_order_by%elem_of_grouped.
  destruct Hr as (em & Hem & ->). exists em. simpl. split_and!; [done..|].
  unfold group_count. do 2 f_equal. apply list_filter_iff. intros em'.
  split; [by intros [= ? ?]|by intros [-> ->]].
Qed.

Lemma select_entity_counts_pos limit ems r :
  r ∈ select_entity_counts limit ems → 1 ≤ ref_count r.
Proof.
  unfold select_entity_counts.
  intros Hr%elem_of_sql_limit%elem_of_order_by%elem_of_grouped.
  destruct Hr as (em & Hem & ->). simpl.
  by apply (group_count_pos (λ em, (em_entity em, em_entity_type em))).
Qed.

(** Every entry of the regrouped mapping comes from a row of the query
    (or was in the mapping before). *)
Lemma grouped_append_spec rows (m : gmap string (list EntityRef)) ty items it :
  foldl grouped_append m rows !! ty = Some items → it ∈ items →
  (∃ items0, m !! ty = Some items0 ∧ it ∈ items0)
  ∨ (∃ r, r ∈ rows ∧ entity_type r = ty
          ∧ ref_entity it = entity r ∧ refs it = ref_count r).
Proof.
  revert m. induction rows as [|r rows IH]; intros m Hm Hit; simpl in *.
  { left. eauto. }
  destruct (IH _ Hm Hit) as [(items0 & Hl & Hin)|(r' & Hr' & ?)].
  - unfold grouped_append in Hl.
    destruct (decide (entity_type r = ty)) as [<-|Hne].
    + rewrite lookup_insert_eq in Hl. injection Hl as <-.
      apply elem_of_app in Hin as [Hin|Hin%list_elem_of_singleton].
      * left. destruct (m !! entity_type r) as [items1|]; simpl in Hin.
        -- eauto.
        -- by apply elem_of_nil in Hin.
      * right. exists r. subst it. simpl. split_and!; [apply list_elem_of_here|done..].
    + rewrite lookup_insert_ne in Hl by done. left. eauto.
  - right. exists r'. split; [by apply list_elem_of_further|done].
Qed.

(** C5. Every entry reported by [get_top_entities] and every entry of the
    mapping reported by [get_entities] carries as its count the number of
    [entity_metadata] rows of exactly that (entity, entity_type) pair, and
    that count is at least 1. *)
Theorem reference_counts_exact path st limit :
  ∃ top grouped,
    run (get_top_entities limit) (opened path st) = Ok top
    ∧ run (get_entities limit) (opened path st) = Ok grouped
    ∧ Forall (λ r, ref_count r = mention_count st (entity r) (entity_type r)
                   ∧ 1 ≤ ref_count r) top
    ∧ map_Forall (λ ty items,
        Forall (λ it, refs it = mention_count st (ref_entity it) ty ∧ 1 ≤ refs it) items)
        grouped.
Proof.
  eexists _, _. split; [apply get_top_entities_opened|].
  split; [apply get_entities_opened|].
  unfold mention_count, mentions. destruct (entity_metadata st) as [ems|]; simpl.
  - split.
    + apply Forall_forall. intros r Hr. split.
      * by destruct (select_entity_counts_spec _ _ _ Hr) as (_ & _ & _ & _ & ->).
      * by eapply select_entity_counts_pos.
    + intros ty items Hitems. apply Forall_forall. intros it Hit.
      destruct (grouped_append_spec _ _ _ _ _ Hitems Hit)
        as [(? & Hl & _)|(r & Hr & <- & -> & ->)].
      { by rewrite lookup_empty in Hl. }
      split.
      * by destruct (select_entity_counts_spec _ _ _ Hr) as (_ & _ & _ & _ & ->).
      * by eapply select_entity_counts_pos.
  - split; [by constructor|]. intros ty items Hl. by rewrite lookup_empty in Hl.
Qed.

End entities.

(** ** Co-occurrences *)

Section co_occurrences.
Context `{Engine}.

Lemma elem_of_co_join ems a b :
  (a, b) ∈ co_join ems ↔
  a ∈ ems ∧ b ∈ ems ∧ em_source_type a = em_source_type b
  ∧ em_source_id a = em_source_id b ∧ em_id a < em_id b.
Proof.
  unfold co_join. rewrite list_elem_of_bind. split.
  - intros (a' & (b' & Hab & Hb)%list_elem_of_bind & Ha).
    apply list_elem_of_singleton in Hab as [= -> ->].
    apply list_elem_of_filter in Hb as [(? & ? & ?) ?]. done.
  - intros (Ha & Hb & ? & ? & ?). exists a. split; [|done].
    apply list_elem_of_bind. exists b. split; [apply list_elem_of_here|].
    by apply list_elem_of_filter.
Qed.

Lemma group_count_names ems ea eb :
  group_count (λ ab : EntityMention * EntityMention, (em_entity ab.1, em_entity ab.2))
    (co_join ems) (ea, eb)
  = Z.of_nat (length (filter (λ ab, em_entity ab.1 = ea ∧ em_entity ab.2 = eb)
                             (co_join ems))).
Proof.
  unfold group_count. do 2 f_equal. apply list_filter_iff. intros ab.
  split; [by intros [= ? ?]|by intros [-> ->]].
Qed.

(** A reported edge is the group of a joined pair of mentions: its names
    are the names of the pair, its count is the number of joined pairs
    with these two names, and it passed the HAVING clause. *)
Lemma select_co_occurrences_spec limit ems r :
  r ∈ select_co_occurrences limit ems →
  2 ≤ shared_sources r
  ∧ shared_sources r
    = Z.of_nat (length (filter (λ ab, em_entity ab.1 = entity_a r
                                      ∧ em_entity ab.2 = entity_b r) (co_join ems)))
  ∧ ∃ a b, (a, b) ∈ co_join ems
           ∧ entity_a r = em_entity a ∧ entity_b r = em_entity b
           ∧ type_a r = em_entity_type a ∧ type_b r = em_entity_type b.
Proof.
  unfold select_co_occurrences.
  intros [Hhaving Hr%elem_of_grouped]%elem_of_having_order_limit.
  destruct Hr as ([a b] & Hab & ->). simpl in *. split; [done|]. split.
  - apply group_count_names.
  - by exists a, b.
Qed.

Lemma select_co_occurrences_NoDup limit ems :
  NoDup ((λ r, (entity_a r, entity_b r)) <$> select_co_occurrences limit ems).
Proof.
  unfold select_co_occurrences.
  apply NoDup_having_order_limit, NoDup_grouped. by intros [a b] c.
Qed.

(** When the limit does not cut, every pair of names with at least two
    joined pairs is reported. *)
Lemma select_co_occurrences_complete limit ems a b :
  limit < 0
  ∨ Z.of_nat (length (remove_dups
      ((λ ab : EntityMention * EntityMention, (em_entity ab.1, em_entity ab.2))
         <$> co_join ems))) ≤ limit →
  (a, b) ∈ co_join ems →
  2 ≤ Z.of_nat (length (filter (λ ab, em_entity ab.1 = em_entity a
                                      ∧ em_entity ab.2 = em_entity b) (co_join ems))) →
  ∃ r, r ∈ select_co_occurrences limit ems
       ∧ entity_a r = em_entity a ∧ entity_b r = em_entity b
       ∧ shared_sources r
         = Z.of_nat (length (filter (λ ab, em_entity ab.1 = em_entity a
                                           ∧ em_entity ab.2 = em_entity b) (co_join ems))).
Proof.
  intros Hlimit Hab Hcount.
  destruct (grouped_complete
              (λ ab : EntityMention * EntityMention, (em_entity ab.1, em_entity ab.2))
              co_occurrence_row (co_join ems) (a, b) Hab)
    as ([a0 b0] & _ & [= Ha0 Hb0] & Hin).
  simpl in Hin. rewrite group_count_names in Hin.
  eexists. split_and!.
  - unfold select_co_occurrences. apply having_order_limit_complete; [|exact Hin|done].
    by rewrite length_grouped.
  - done.
  - done.
  - done.
Qed.

(** When no pair of names has two joined pairs, nothing is reported. *)
Lemma select_co_occurrences_nil limit ems :
  Forall (λ ab, Z.of_nat (length (filter (λ ab', em_entity ab'.1 = em_entity ab.1
                                                ∧ em_entity ab'.2 = em_entity ab.2)
                                         (co_join ems))) < 2) (co_join ems) →
  select_co_occurrences limit ems = [].
Proof.
  intros Hall. apply elem_of_nil_inv. intros r Hr.
  destruct (select_co_occurrences_spec _ _ _ Hr) as (Hge & Hcount & a & b & Hab & Ha & Hb & _).
  rewrite Forall_forall in Hall. specialize (Hall _ Hab). simpl in Hall.
  rewrite Ha, Hb in Hcount. lia.
Qed.

(** C10. The edges of [get_co_occurrences] are keyed by the two entity
    names only: no two returned edges have the same (entity_a, entity_b),
    the count of an edge is the number of joined mention pairs with these
    two names whatever their entity types, and type_a, type_b are the
    entity types of one joined pair of the group. *)
Theorem co_occurrences_keyed_by_names path st limit :
  ∃ rows,
    run (get_co_occurrences limit) (opened path st) = Ok rows
    ∧ NoDup ((λ r, (entity_a r, entity_b r)) <$> rows)
    ∧ Forall (λ r,
        shared_sources r = pair_count st (entity_a r) (entity_b r)
        ∧ ∃ a b, (a, b) ∈ co_join (mentions st)
                 ∧ em_entity a = entity_a r ∧ em_entity b = entity_b r
                 ∧ type_a r = em_entity_type a ∧ type_b r = em_entity_type b) rows.
Proof.
  eexists. split; [apply get_co_occurrences_opened|].
  unfold pair_count, mentions. destruct (entity_metadata st) as [ems|]; simpl.
  - split; [apply select_co_occurrences_NoDup|].
    apply Forall_forall. intros r Hr.
    destruct (select_co_occurrences_spec _ _ _ Hr) as (_ & Hcount & a & b & ? & ? & ? & ? & ?).
    split; [done|]. by exists a, b.
  - split; constructor.
Qed.

(** C1 (the code departs from the claim). In [store_interleaved] the names
    "auth" and "jwt" share the two sources knowledge#1 and knowledge#2, but
    "auth" has the smaller mention id in one source and "jwt" in the
    other: the two joined pairs fall into the groups ("auth","jwt") and
    ("jwt","auth"), neither reaches the threshold, and no edge is
    returned. *)
Theorem interleaved_ids_lose_the_edge :
  shared_source_count store_interleaved "auth" "jwt" = 2
  ∧ run (get_co_occurrences 100) (opened "memory.db" store_interleaved) = Ok [].
Proof.
  split; [done|]. rewrite get_co_occurrences_opened. simpl. f_equal.
  apply select_co_occurrences_nil. by apply (bool_decide_unpack _).
Qed.

(** C2 (the code departs from the claim). In [store_same_name] each of two
    sources holds two mention rows of the name "auth"; the join pairs them
    and the edge ("auth","auth") is returned with count 2. *)
Theorem self_pair_reported :
  ∃ rows r,
    run (get_co_occurrences 100) (opened "memory.db" store_same_name) = Ok rows
    ∧ r ∈ rows ∧ entity_a r = "auth" ∧ entity_b r = "auth" ∧ shared_sources r = 2.
Proof.
  eexists _. rewrite get_co_occurrences_opened. simpl.
  destruct (select_co_occurrences_complete 100
              [ mention 1 "auth" "concept" "knowledge" 1;
                mention 2 "auth" "file" "knowledge" 1;
                mention 3 "auth" "concept" "knowledge" 2;
                mention 4 "auth" "file" "knowledge" 2 ]
              (mention 1 "auth" "concept" "knowledge" 1)
              (mention 2 "auth" "file" "knowledge" 1))
    as (r & Hr & Ha & Hb & Hc).
  - right. by apply (bool_decide_unpack _).
  - by apply (bool_decide_unpack _).
  - by apply (bool_decide_unpack _).
  - exists r. split; [done|]. split; [exact Hr|]. by rewrite Ha, Hb, Hc.
Qed.

(** C3 (the code departs from the claim). In [store_both_orders] the pair
    of names {"auth","jwt"} is returned twice, once in each order, each
    edge counting only the sources in which its first name has the smaller
    mention id. *)
Theorem pair_reported_in_both_orders :
  ∃ rows r1 r2,
    run (get_co_occurrences 100) (opened "memory.db" store_both_orders) = Ok rows
    ∧ r1 ∈ rows ∧ r2 ∈ rows
    ∧ entity_a r1 = "auth" ∧ entity_b r1 = "jwt" ∧ shared_sources r1 = 2
    ∧ entity_a r2 = "jwt" ∧ entity_b r2 = "auth" ∧ shared_sources r2 = 2.
Proof.
  eexists _. rewrite get_co_occurrences_opened. simpl.
  set (ems := [ mention 1 "auth" "concept" "knowledge" 1;
                mention 2 "jwt" "concept" "knowledge" 1;
                mention 3 "auth" "concept" "knowledge" 2;
                mention 4 "jwt" "concept" "knowledge" 2;
                mention 5 "jwt" "concept" "knowledge" 3;
                mention 6 "auth" "concept" "knowledge" 3;
                mention 7 "jwt" "concept" "knowledge" 4;
                mention 8 "auth" "concept" "knowledge" 4 ]).
  destruct (select_co_occurrences_complete 100 ems
              (mention 1 "auth" "concept" "knowledge" 1)
              (mention 2 "jwt" "concept" "knowledge" 1))
    as (r1 & Hr1 & Ha1 & Hb1 & Hc1); [right|..]; try by apply (bool_decide_unpack _).
  destruct (select_co_occurrences_complete 100 ems
              (mention 5 "jwt" "concept" "knowledge" 3)
              (mention 6 "auth" "concept" "knowledge" 3))
    as (r2 & Hr2 & Ha2 & Hb2 & Hc2); [right|..]; try by apply (bool_decide_unpack _).
  exists r1, r2. split; [done|]. split; [exact Hr1|]. split; [exact Hr2|].
  by rewrite Ha1, Hb1, Hc1, Ha2, Hb2, Hc2.
Qed.

End co_occurrences.

(** ** Labels *)

Lemma length_substr1 n s : (String.length (substr1 n s) ≤ n)%nat.
Proof.
  unfold substr1. revert s. induction n as [|n IH]; intros [|c s]; simpl; try lia.
  specialize (IH s). lia.
Qed.

Lemma length_string_app s1 s2 :
  String.length (s1 +:+ s2) = (String.length s1 + String.length s2)%nat.
Proof. induction s1 as [|c s1 IH]; simpl; [done|by rewrite IH]. Qed.

Lemma scalar_subquery_Some {A B} (col : A → B) (id_of : A → Z) rows i v :
  scalar_subquery col id_of rows i = Some v →
  ∃ r, r ∈ rows ∧ id_of r = i ∧ v = col r.
Proof.
  unfold scalar_subquery. destruct (find _ rows) as [r|] eqn:Hfind; [|done].
  intros [= <-]. apply find_some in Hfind as [Hin Hid].
  exists r. split; [by apply list_elem_of_In|]. split; [lia|done].
Qed.


Section labels.
Context `{Engine}.

Lemma relation_label_bounded st ss ks fs ty i :
  knowledge st = Some ks →
  relation_label_bound st ty i (relation_label ss ks fs ty i).
Proof.
  intros Hks l. unfold relation_label, relation_label_bound. rewrite Hks. simpl.
  destruct (decide (ty = "knowledge")) as [->|Hty]; simpl.
  - intros (k & ? & ? & ->)%scalar_subquery_Some. by exists k.
  - destruct (String.eqb_spec ty "session").
    { intros (s & _ & _ & ->)%scalar_subquery_Some. apply length_substr1. }
    destruct (String.eqb_spec ty "knowledge"); [done|].
    destruct (String.eqb_spec ty "fact"); [|done].
    intros (f & _ & _ & ->)%scalar_subquery_Some. apply length_substr1.
Qed.

Lemma source_context_bounded st ss ks fs ty i :
  knowledge st = Some ks →
  context_bound st ty i (source_context ss ks fs ty i).
Proof.
  intros Hks l. unfold source_context, context_bound. rewrite Hks. simpl.
  destruct (decide (ty = "knowledge")) as [->|Hty]; simpl.
  - intros (k & ? & ? & ->)%scalar_subquery_Some. exists k. split_and!; [done..|].
    rewrite !length_string_app. simpl.
    pose proof (length_substr1 60 (k_summary k)). lia.
  - destruct (String.eqb_spec ty "session").
    { intros (s & _ & _ & ->)%scalar_subquery_Some. apply length_substr1. }
    destruct (String.eqb_spec ty "knowledge"); [done|].
    destruct (String.eqb_spec ty "fact"); [|done].
    intros (f & _ & _ & ->)%scalar_subquery_Some. apply length_substr1.
Qed.

(** C4 (amended). A label derived from a session summary or from a fact
    text has at most 60 characters in [get_relations] and at most 80 in
    [get_entity_detail]. A label derived from a knowledge area is not cut
    to the budget: in [get_relations] it is the whole area name, in
    [get_entity_detail] it is the whole area name, then ": ", then at
    most 60 characters of the summary. *)
Theorem labels_within_budget path st :
  (∀ rows, run get_relations (opened path st) = Ok rows →
     Forall (λ r, relation_label_bound st (from_type r) (from_id r) (from_label r)
                  ∧ relation_label_bound st (to_type r) (to_id r) (to_label r)) rows)
  ∧ (∀ q d, run (get_entity_detail q) (opened path st) = Ok d →
     Forall (λ s, context_bound st (source_type s) (source_id s) (context s))
       (detail_sources d)).
Proof.
  split.
  - intros rows. rewrite get_relations_opened. unfold sql_relations.
    destruct (entry_relations st) as [ers|]; [|by intros [= <-]; constructor].
    destruct (sessions st) as [ss|]; [|done].
    destruct (knowledge st) as [ks|] eqn:Hks; [|done].
    destruct (facts st) as [fs|]; [|done]. simpl. intros [= <-].
    apply Forall_forall. intros r Hr%elem_of_sql_limit.
    apply list_elem_of_fmap in Hr as (er & -> & _). simpl.
    split; by apply relation_label_bounded.
  - intros q d. rewrite get_entity_detail_opened. unfold sql_detail_sources.
    destruct (entity_metadata st) as [ems|]; [|by intros [= <-]; constructor].
    destruct (sessions st) as [ss|]; [|done].
    destruct (knowledge st) as [ks|] eqn:Hks; [|done].
    destruct (facts st) as [fs|]; [|done]. simpl.
    intros Hd.
    assert (Hsrc : detail_sources d = select_detail_sources q ems ss ks fs).
    { unfold mbind, result_bind, rbind, mret, result_ret in Hd.
      destruct (_ && _) in Hd;
        [destruct (sql_detail_relations _ _) in Hd; [|done]|];
        (destruct (sql_detail_co_occurring _ _) in Hd; [|done]);
        by injection Hd as <-. }
    rewrite Hsrc. apply Forall_forall. intros s Hs.
    apply list_elem_of_fmap in Hs as (em & -> & _). simpl.
    by apply source_context_bounded.
Qed.

End labels.

(** ** Referential gaps *)

Section dangling.
Context `{Engine}.



Lemma select_relations_sound ers ss ks fs r :
  r ∈ select_relations ers ss ks fs → ∃ er, er ∈ ers ∧ r = label_relation ss ks fs er.
Proof.
  unfold select_relations. intros Hr%elem_of_sql_limit.
  apply list_elem_of_fmap in Hr as (er & -> & Her%elem_of_order_by). eauto.
Qed.


End dangling.

(** ** The neighbourhood of a name that matches nothing *)







Section not_found.
Context `{Engine}.




End not_found.

(** ** The timeline *)



Lemma Sorted_take {A} (R : A → A → Prop) n l : Sorted R l → Sorted R (take n l).
Proof.
  intros Hs. revert n. induction Hs as [|x l Hs IH Hx]; intros [|n]; simpl; try by constructor.
  constructor; [apply IH|].
  destruct Hx as [|y l' Hxy]; destruct n; simpl; by constructor.
Qed.



Section timeline.
Context `{Engine}.


End timeline.

(** ** Determinism and absence of mutation *)

Lemma mutation_free_ret {A} (a : A) : mutation_free (mret a).
Proof. by intros self. Qed.

Lemma mutation_free_bind {A B} (m : M A) (k : A → M B) :
  mutation_free m → (∀ a, mutation_free (k a)) → mutation_free (m ≫= k).
Proof.
  intros Hm Hk self. unfold mbind, M_bind. specialize (Hm self).
  destruct (m self) as [[a|e] self']; simpl in *; subst self'; [apply Hk|done].
Qed.

Lemma mutation_free_tables_get name : mutation_free (tables_get name).
Proof. by intros self. Qed.

Lemma mutation_free_execute {A} (stmt : Store → result A) : mutation_free (execute stmt).
Proof. by intros self. Qed.

Lemma mutation_free_if {A} (b : bool) (m1 m2 : M A) :
  mutation_free m1 → mutation_free m2 → mutation_free (if b then m1 else m2).
Proof. by destruct b. Qed.


Ltac read_only :=
  repeat first
    [ apply mutation_free_bind; [|intros ?]
    | apply mutation_free_if
    | apply mutation_free_ret
    | apply mutation_free_tables_get
    | apply mutation_free_execute ].

Section read_only.
Context `{Engine}.

Lemma mutation_free_get_stats_loop tbls stats : mutation_free (get_stats_loop tbls stats).
Proof.
  revert stats. induction tbls as [|tbl tbls IH]; intros stats; simpl.
  - apply mutation_free_ret.
  - apply mutation_free_bind; [apply mutation_free_tables_get|]. intros present.
    apply mutation_free_bind; [|intros c; apply IH].
    apply mutation_free_if; [apply mutation_free_execute|apply mutation_free_ret].
Qed.

Lemma mutation_free_get_stats : mutation_free get_stats.
Proof. apply mutation_free_get_stats_loop. Qed.

Lemma mutation_free_get_entities limit : mutation_free (get_entities limit).
Proof. unfold get_entities, _has_entities. read_only. Qed.

Lemma mutation_free_get_top_entities limit : mutation_free (get_top_entities limit).
Proof. unfold get_top_entities, _has_entities. read_only. Qed.

Lemma mutation_free_get_relations : mutation_free get_relations.
Proof. unfold get_relations, _has_relations. read_only. Qed.

Lemma mutation_free_get_co_occurrences limit : mutation_free (get_co_occurrences limit).
Proof. unfold get_co_occurrences, _has_entities. read_only. Qed.

Lemma mutation_free_get_timeline limit : mutation_free (get_timeline limit).
Proof. unfold get_timeline. read_only. Qed.



End read_only.

(** ** The properties on the example stores *)

Example placeholder_fact_9 : placeholder "fact" 9 = "fact:9".
Proof. reflexivity. Qed.

Example placeholder_negative_id : placeholder "session" (-12) = "session:-12".
Proof. reflexivity. Qed.

Example like_ignores_ascii_case : like (contains_pattern "AUTH") "my-auth-lib" = true.
Proof. reflexivity. Qed.

Example like_underscore_is_one_character :
  like (contains_pattern "a_th") "xauthx" = true
  ∧ like (contains_pattern "a_h") "auth" = false.
Proof. by split. Qed.

(** With "auth" recorded before "jwt" in both sources the edge of the
    scenario is returned. *)
Example auth_first_edge :
  run (get_co_occurrences (H := scan_engine) 100) (opened "memory.db" store_auth_first)
  = Ok [ {| entity_a := "auth"; type_a := "concept";
            entity_b := "jwt"; type_b := "concept"; shared_sources := 2 |} ].
Proof. by vm_compute. Qed.

(** Mentions of one name under different entity types fall into one
    group; the entity types shown are those of one pair of the group. *)
Example mixed_types_one_edge :
  run (get_co_occurrences (H := scan_engine) 100) (opened "memory.db" store_mixed_types)
  = Ok [ {| entity_a := "auth"; type_a := "file";
            entity_b := "jwt"; type_b := "concept"; shared_sources := 2 |} ].
Proof. by vm_compute. Qed.

(** The relation of the scenario as the rich renderer shows it. *)
Example dangling_scenario_rendered :
  ∃ rows,
    run (get_relations (H := scan_engine)) (opened "memory.db" store_dangling) = Ok rows
    ∧ RichRenderer.relation_rows rows
      = [ ("Chose JWT for the API", "established", "fact:9") ]
    ∧ PlainRenderer.relation_rows rows
      = [ ("Chose JWT for the API", "established", "fact:9") ].
Proof. eexists. split; [by vm_compute|]. by vm_compute. Qed.

(** Preparing the statements of [get_entity_detail] fails when a source
    table they name is missing. *)
Example detail_needs_source_tables :
  run (get_entity_detail (H := scan_engine) "auth") (opened "memory.db" store_no_sessions)
  = Raise (OperationalError "sessions").
Proof. by vm_compute. Qed.

(** C4, counterexample. A knowledge area named with 65 characters labels
    the edge that starts from it with all 65 characters, and the context
    of a mention recorded in it has 99 characters. *)
Lemma long_area_label_exceeds_budget :
  (∃ rows r l,
     run (get_relations (H := scan_engine)) (opened "memory.db" store_long_area) = Ok rows
     ∧ r ∈ rows ∧ from_label r = Some l ∧ (60 < String.length l)%nat)
  ∧ (∃ d s c,
     run (get_entity_detail (H := scan_engine) "gateway")
         (opened "memory.db" store_long_area) = Ok d
     ∧ s ∈ detail_sources d ∧ context s = Some c ∧ (80 < String.length c)%nat).
Proof.
  split.
  - eexists _, _, _. split; [by vm_compute|].
    split; [apply list_elem_of_here|]. split; [done|]. vm_compute. lia.
  - eexists _, _, _. split; [by vm_compute|].
    split; [apply list_elem_of_here|]. split; [done|]. vm_compute. lia.
Qed.

(** [labels_within_budget] on the edge of [store_long_area]. *)
Lemma labels_within_budget_witness :
  ∃ rows,
    run (get_relations (H := scan_engine)) (opened "memory.db" store_long_area) = Ok rows
    ∧ rows ≠ []
    ∧ Forall (λ r, relation_label_bound store_long_area
                     (from_type r) (from_id r) (from_label r)
                   ∧ relation_label_bound store_long_area
                       (to_type r) (to_id r) (to_label r)) rows.
Proof.
  eexists. split; [by vm_compute|]. split; [done|].
  apply (proj1 (labels_within_budget (H := scan_engine) "memory.db" store_long_area)).
  by vm_compute.
Defined.





(** * Further properties of the derivation layer *)

(** ** Which calls return *)

(** The opened object, seen through its flags and its connection only. *)
Ltac opened_object path st :=
  let Hconn := fresh "Hconn" in
  destruct (tables_opened path st) as (Hts & Htk & Htf & Hte & Htr);
  assert (Hconn : conn (opened path st) = st) by done;
  revert Hts Htk Htf Hte Htr Hconn;
  generalize (opened path st);
  intros db Hts Htk Htf Hte Htr Hconn;
  unfold run, _has_entities, _has_relations, tables_get, execute,
    mbind, M_bind, mret, M_ret.

Section returns.
Context `{Engine}.

Lemma get_stats_opened path st :
  run get_stats (opened path st)
  = Ok (<["entry_relations" := row_count (entry_relations st)]>
         (<["entity_metadata" := row_count (entity_metadata st)]>
           (<["facts" := row_count (facts st)]>
             (<["knowledge" := row_count (knowledge st)]>
               (<["sessions" := row_count (sessions st)]> ∅))))).
Proof.
  unfold get_stats. simpl. opened_object path st.
  unfold sql_count, row_count.
  destruct (sessions st) as [ss|] eqn:Hss, (knowledge st) as [ks|] eqn:Hks,
    (facts st) as [fs|] eqn:Hfs, (entity_metadata st) as [ems|] eqn:Hems,
    (entry_relations st) as [ers|] eqn:Hers;
    repeat (progress (rewrite ?Hts, ?Htk, ?Htf, ?Hte, ?Htr, ?Hconn,
                        ?Hss, ?Hks, ?Hfs, ?Hems, ?Hers; simpl));
    done.
Qed.

(** X1. On an opened database [get_stats] returns for every store: the
    mapping has the five counted tables as its keys, and maps each to the
    number of rows of the table, 0 when the file has no such table. *)
Theorem get_stats_counts_rows path st :
  ∃ stats,
    run get_stats (opened path st) = Ok stats
    ∧ (∀ tbl, is_Some (stats !! tbl) ↔ tbl ∈ counted_tables)
    ∧ stats !! "sessions" = Some (row_count (sessions st))
    ∧ stats !! "knowledge" = Some (row_count (knowledge st))
    ∧ stats !! "facts" = Some (row_count (facts st))
    ∧ stats !! "entity_metadata" = Some (row_count (entity_metadata st))
    ∧ stats !! "entry_relations" = Some (row_count (entry_relations st)).
Proof.
  eexists. split; [apply get_stats_opened|]. split.
  - intros tbl. unfold counted_tables.
    rewrite !lookup_insert_is_Some, lookup_empty, !elem_of_cons, elem_of_nil.
    split.
    + intros [->|[_ [->|[_ [->|[_ [->|[_ [->|[_ []%is_Some_None]]]]]]]]]]; auto 10.
    + intros [->|[->|[->|[->|[->|[]]]]]];
        repeat first [by left | right; split; [done|]].
  - by split_and!.
Qed.





End returns.

(** ** Ranking and regrouping of entities *)

Lemma Sorted_weaken {A} (R1 R2 : A → A → Prop) l :
  (∀ x y, R1 x y → R2 x y) → Sorted R1 l → Sorted R2 l.
Proof.
  intros HR Hs. induction Hs as [|x l Hs IH Hx]; constructor; [done|].
  destruct Hx; constructor; auto.
Qed.

Section ranking.
Context `{Engine}.

Lemma Sorted_sql_limit {A} (R : A → A → Prop) n l :
  Sorted R l → Sorted R (sql_limit n l).
Proof. intros Hs. unfold sql_limit. destruct (n <? 0); [done|by apply Sorted_take]. Qed.

Lemma order_by_descending {A} (col : A → Z) l :
  descending col (order_by (desc_Z col) l).
Proof.
  unfold descending. apply Sorted_weaken with (R1 := λ x y, desc_Z col x y = true).
  - intros x y. unfold desc_Z. lia.
  - apply order_by_sorted. intros x y. unfold desc_Z. lia.
Qed.

Lemma order_by_newest_first {A} (col : A → string) l :
  newest_first_by col (order_by (desc_text col) l).
Proof.
  apply order_by_sorted. intros x y. unfold desc_text.
  destruct (String.leb_total (col y) (col x)); auto.
Qed.

(** What the regrouping loop of [get_entities] leaves under a type: the
    entries that were there, then the rows of that type in query order. *)
Lemma foldl_grouped_append rows (m : gmap string (list EntityRef)) ty :
  foldl grouped_append m rows !! ty
  = match filter (λ r, entity_type r = ty) rows with
    | [] => m !! ty
    | r :: rs => Some (default [] (m !! ty) ++ (entity_ref <$> r :: rs))
    end.
Proof.
  revert m. induction rows as [|r rows IH]; intros m; [done|].
  simpl. rewrite IH, filter_cons.
  destruct (decide (entity_type r = ty)) as [<-|Hne].
  - unfold grouped_append. rewrite lookup_insert_eq.
    destruct (filter _ rows) as [|r' rs]; [done|].
    simpl. by rewrite <- app_assoc.
  - unfold grouped_append. by rewrite lookup_insert_ne.
Qed.


(** X5. With the same limit, [get_entities] is [get_top_entities]
    regrouped by entity type: a type is a key of the mapping exactly when
    a row of that type is returned, and its entries are the rows of that
    type, in the order of [get_top_entities], each as its entity and its
    count. No key maps to an empty list. *)
Theorem get_entities_regroups_top path st limit :
  ∃ top grouped,
    run (get_top_entities limit) (opened path st) = Ok top
    ∧ run (get_entities limit) (opened path st) = Ok grouped
    ∧ ∀ ty,
        match grouped !! ty with
        | Some items =>
            items ≠ [] ∧ items = entity_ref <$> filter (λ r, entity_type r = ty) top
        | None => filter (λ r, entity_type r = ty) top = []
        end.
Proof.
  eexists _, _. split; [apply get_top_entities_opened|].
  split; [apply get_entities_opened|]. intros ty.
  destruct (entity_metadata st) as [ems|]; [|by rewrite lookup_empty].
  rewrite foldl_grouped_append, lookup_empty.
  by destruct (filter _ (select_entity_counts limit ems)).
Qed.

End ranking.

(** ** Ranking and threshold of co-occurrences *)

Section co_ranking.
Context `{Engine}.

(** X6. Every edge returned by [get_co_occurrences] counts at least two
    joined mention pairs, the counts never increase along the list, and
    the list has at most [limit] edges when the limit is not negative. *)
Theorem co_occurrences_ranked path st limit :
  ∃ rows,
    run (get_co_occurrences limit) (opened path st) = Ok rows
    ∧ Forall (λ r, 2 ≤ shared_sources r) rows
    ∧ descending shared_sources rows
    ∧ (0 ≤ limit → Z.of_nat (length rows) ≤ limit).
Proof.
  eexists. split; [apply get_co_occurrences_opened|].
  destruct (entity_metadata st) as [ems|]; simpl.
  2:{ split_and!; try by constructor. simpl. lia. }
  split_and!.
  - apply Forall_forall. intros r Hr.
    by destruct (select_co_occurrences_spec _ _ _ Hr) as [? _].
  - apply Sorted_sql_limit, order_by_descending.
  - apply length_sql_limit.
Qed.


End co_ranking.


(** ** Order, cap and labels of relations *)

Lemma scalar_subquery_is_Some {A B} (col : A → B) (id_of : A → Z) rows i :
  is_Some (scalar_subquery col id_of rows i) ↔ ∃ r, r ∈ rows ∧ id_of r = i.
Proof.
  split.
  - intros [v (r & ? & ? & _)%scalar_subquery_Some]. eauto.
  - intros (r & Hr & Hid). unfold scalar_subquery.
    destruct (find _ rows) as [r'|] eqn:Hfind; [by eexists|].
    apply list_elem_of_In in Hr.
    pose proof (find_none _ _ Hfind r Hr) as Hno. simpl in Hno. lia.
Qed.

Section relations.
Context `{Engine}.

(** An endpoint is labelled exactly when the row it refers to exists. *)
Lemma relation_label_is_Some st ss ks fs ty i :
  sessions st = Some ss → knowledge st = Some ks → facts st = Some fs →
  is_Some (relation_label ss ks fs ty i) ↔ source_row_exists st ty i.
Proof.
  intros Hss Hks Hfs. unfold source_row_exists, relation_label.
  rewrite Hss, Hks, Hfs. simpl.
  destruct (String.eqb_spec ty "session") as [->|Hs].
  { rewrite scalar_subquery_is_Some. split; [by left|].
    by intros [[_ ?]|[[[=] _]|[[=] _]]]. }
  destruct (String.eqb_spec ty "knowledge") as [->|Hk].
  { rewrite scalar_subquery_is_Some. split; [by right; left|].
    by intros [[[=] _]|[[_ ?]|[[=] _]]]. }
  destruct (String.eqb_spec ty "fact") as [->|Hf].
  { rewrite scalar_subquery_is_Some. split; [by right; right|].
    by intros [[[=] _]|[[[=] _]|[_ ?]]]. }
  split; [by intros []%is_Some_None|].
  by intros [[? _]|[[? _]|[? _]]].
Qed.

(** X8. When the tables its statement names exist, [get_relations]
    returns the labelled form of a list of edges that is a part of
    [entry_relations] (all of it when the table holds at most 100 edges),
    has at most 100 edges, and in which the creation timestamp never
    increases from an edge to the next. *)
Theorem relations_newest_first_capped path st ers ss ks fs :
  entry_relations st = Some ers → sessions st = Some ss →
  knowledge st = Some ks → facts st = Some fs →
  ∃ edges,
    run get_relations (opened path st) = Ok (label_relation ss ks fs <$> edges)
    ∧ edges ⊆+ ers
    ∧ (length edges ≤ 100)%nat
    ∧ newest_first_by er_created_at edges
    ∧ ((length ers ≤ 100)%nat → edges ≡ₚ ers).
Proof.
  intros Hers Hss Hks Hfs.
  exists (take 100 (order_by (desc_text er_created_at) ers)). split_and!.
  - rewrite get_relations_opened, Hers. unfold sql_relations.
    rewrite Hers, Hss, Hks, Hfs. simpl. unfold select_relations.
    by rewrite sql_limit_take, fmap_take by lia.
  - etrans; [apply submseteq_take|]. by rewrite order_by_perm.
  - rewrite length_take. lia.
  - apply Sorted_take, order_by_newest_first.
  - intros Hlen. rewrite take_ge by (rewrite length_order_by; lia).
    apply order_by_perm.
Qed.

(** X9. In every row that [get_relations] returns, an endpoint has a
    label exactly when the source row it refers to exists (a session,
    knowledge or fact row with that id); the label the renderer shows is
    the stored label when that is a non-empty text and the placeholder
    "<type>:<id>" otherwise, so an existing row with empty text is shown
    like a missing one. *)
Theorem labels_follow_source_rows path st ers ss ks fs :
  entry_relations st = Some ers → sessions st = Some ss →
  knowledge st = Some ks → facts st = Some fs →
  ∃ rows,
    run get_relations (opened path st) = Ok rows
    ∧ Forall (λ r,
        (is_Some (from_label r) ↔ source_row_exists st (from_type r) (from_id r))
        ∧ (is_Some (to_label r) ↔ source_row_exists st (to_type r) (to_id r))
        ∧ (from_lbl r = placeholder (from_type r) (from_id r)
           ∨ (from_lbl r ≠ "" ∧ from_label r = Some (from_lbl r)))
        ∧ (from_label r = Some "" → from_lbl r = placeholder (from_type r) (from_id r))
        ∧ (to_lbl r = placeholder (to_type r) (to_id r)
           ∨ (to_lbl r ≠ "" ∧ to_label r = Some (to_lbl r)))
        ∧ (to_label r = Some "" → to_lbl r = placeholder (to_type r) (to_id r))) rows.
Proof.
  intros Hers Hss Hks Hfs. eexists. split.
  { rewrite get_relations_opened, Hers. unfold sql_relations.
    by rewrite Hers, Hss, Hks, Hfs. }
  apply Forall_forall. intros r (er & _ & ->)%select_relations_sound. simpl.
  split_and!.
  - by apply relation_label_is_Some.
  - by apply relation_label_is_Some.
  - unfold from_lbl. simpl.
    destruct (relation_label ss ks fs (er_from_type er) (er_from_id er)) as [[|c l]|];
      simpl; auto.
  - unfold from_lbl. simpl. by intros ->.
  - unfold to_lbl. simpl.
    destruct (relation_label ss ks fs (er_to_type er) (er_to_id er)) as [[|c l]|];
      simpl; auto.
  - unfold to_lbl. simpl. by intros ->.
Qed.

End relations.

(** [relations_newest_first_capped] on [store_dangling]. *)
Lemma relations_newest_first_capped_witness :
  ∃ edges,
    run (get_relations (H := scan_engine)) (opened "memory.db" store_dangling)
    = Ok (label_relation
            [ {| s_id := 5; s_created_at := "2025-02-01 11:00:00";
                 s_summary := "Chose JWT for the API" |} ]
            []
            [ {| f_id := 8; f_fact := "Tokens expire after one hour" |} ] <$> edges)
    ∧ edges ⊆+ [edge_5_9]
    ∧ (length edges ≤ 100)%nat
    ∧ newest_first_by er_created_at edges
    ∧ ((length [edge_5_9] ≤ 100)%nat → edges ≡ₚ [edge_5_9]).
Proof.
  exact (relations_newest_first_capped (H := scan_engine) "memory.db" store_dangling
           [edge_5_9] _ _ _ eq_refl eq_refl eq_refl eq_refl).
Defined.

(** [labels_follow_source_rows] on [store_dangling]: the session end of
    the edge is labelled, the fact end is not. *)
Lemma labels_follow_source_rows_witness :
  ∃ rows,
    run (get_relations (H := scan_engine)) (opened "memory.db" store_dangling) = Ok rows
    ∧ rows ≠ []
    ∧ Forall (λ r,
        (is_Some (from_label r) ↔ source_row_exists store_dangling (from_type r) (from_id r))
        ∧ (is_Some (to_label r) ↔ source_row_exists store_dangling (to_type r) (to_id r))
        ∧ (from_lbl r = placeholder (from_type r) (from_id r)
           ∨ (from_lbl r ≠ "" ∧ from_label r = Some (from_lbl r)))
        ∧ (from_label r = Some "" → from_lbl r = placeholder (from_type r) (from_id r))
        ∧ (to_lbl r = placeholder (to_type r) (to_id r)
           ∨ (to_lbl r ≠ "" ∧ to_label r = Some (to_lbl r)))
        ∧ (to_label r = Some "" → to_lbl r = placeholder (to_type r) (to_id r))) rows.
Proof.
  destruct (labels_follow_source_rows (H := scan_engine) "memory.db" store_dangling
              [edge_5_9] _ _ _ eq_refl eq_refl eq_refl eq_refl)
    as (rows & Hrun & Hall).
  exists rows. split; [exact Hrun|]. split; [|exact Hall].
  intros ->. by vm_compute in Hrun.
Defined.

(** ** The neighbourhood of a name *)


Section neighbourhood.
Context `{Engine}.






End neighbourhood.

(** ** Matching ignores the case of ASCII letters *)

Lemma ascii_lower_idemp c : ascii_lower (ascii_lower c) = ascii_lower c.
Proof. by destruct c as [[] [] [] [] [] [] [] []]. Qed.

Lemma ascii_lower_percent c : Ascii.eqb (ascii_lower c) "%" = Ascii.eqb c "%".
Proof. by destruct c as [[] [] [] [] [] [] [] []]. Qed.

Lemma ascii_lower_underscore c : Ascii.eqb (ascii_lower c) "_" = Ascii.eqb c "_".
Proof. by destruct c as [[] [] [] [] [] [] [] []]. Qed.

Lemma like_cons_unfold c p s :
  like (String c p) s
  = if Ascii.eqb c "%" then
      like p s
      || match s with
         | EmptyString => false
         | String _ s' => like (String c p) s'
         end
    else if Ascii.eqb c "_" then
      match s with
      | EmptyString => false
      | String _ s' => like p s'
      end
    else
      match s with
      | EmptyString => false
      | String d s' => Ascii.eqb (ascii_lower c) (ascii_lower d) && like p s'
      end.
Proof.
  simpl. destruct (Ascii.eqb c "%"); [by destruct s|].
  by destruct (Ascii.eqb c "_").
Qed.

(** The case of the letters of a pattern does not matter. *)
Lemma like_lower_pattern p s : like (string_lower p) s = like p s.
Proof.
  revert s. induction p as [|c p IH]; intros s; [done|].
  cbn [string_lower]. induction s as [|d s IHs].
  - rewrite !like_cons_unfold, ascii_lower_percent, ascii_lower_underscore, IH. done.
  - rewrite (like_cons_unfold (ascii_lower c)), (like_cons_unfold c).
    by rewrite ascii_lower_percent, ascii_lower_underscore, ascii_lower_idemp, !IH, IHs.
Qed.

Lemma contains_pattern_lower q :
  string_lower (contains_pattern q) = contains_pattern (string_lower q).
Proof.
  assert (Happ : ∀ s, string_lower (s +:+ "%") = string_lower s +:+ "%").
  { intros s. induction s as [|c s IH]; [done|].
    change (String c s +:+ "%") with (String c (s +:+ "%")).
    change (string_lower (String c (s +:+ "%")))
      with (String (ascii_lower c) (string_lower (s +:+ "%"))).
    by rewrite IH. }
  unfold contains_pattern.
  change ("%" +:+ q +:+ "%") with (String "%" (q +:+ "%")).
  change (string_lower (String "%" (q +:+ "%")))
    with (String "%" (string_lower (q +:+ "%"))).
  by rewrite Happ.
Qed.

Lemma like_contains_pattern_lower q1 q2 s :
  string_lower q1 = string_lower q2 →
  like (contains_pattern q1) s = like (contains_pattern q2) s.
Proof.
  intros Hq. rewrite <- (like_lower_pattern (contains_pattern q1)),
    <- (like_lower_pattern (contains_pattern q2)).
  by rewrite !contains_pattern_lower, Hq.
Qed.

Section case.
Context `{Engine}.

(** X13. Two queries that differ only in the case of ASCII letters get
    the same answer from [get_entity_detail]: both calls raise the same
    exception, or both return, with the same sources, the same relations
    and the same co-occurring entities. *)
Theorem explore_ignores_ascii_case path st q1 q2 :
  string_lower q1 = string_lower q2 →
  match run (get_entity_detail q1) (opened path st),
        run (get_entity_detail q2) (opened path st) with
  | Ok d1, Ok d2 =>
      detail_sources d1 = detail_sources d2
      ∧ detail_relations d1 = detail_relations d2
      ∧ detail_co_occurring d1 = detail_co_occurring d2
  | Raise e1, Raise e2 => e1 = e2
  | _, _ => False
  end.
Proof.
  intros Hq. rewrite !get_entity_detail_opened.
  destruct (entity_metadata st) as [ems|] eqn:Hems; [|done].
  assert (Hsrc : sql_detail_sources q1 st = sql_detail_sources q2 st).
  { unfold sql_detail_sources, select_detail_sources.
    destruct (entity_metadata st), (sessions st), (knowledge st), (facts st); simpl;
      try done.
    do 3 f_equal. apply list_filter_iff. intros em.
    by rewrite (like_contains_pattern_lower q1 q2). }
  assert (Hco : sql_detail_co_occurring q1 st = sql_detail_co_occurring q2 st).
  { unfold sql_detail_co_occurring, select_detail_co_occurring, detail_join.
    destruct (entity_metadata st); simpl; [|done].
    do 6 f_equal. apply list_filter_iff. intros ab.
    by rewrite (like_contains_pattern_lower q1 q2). }
  rewrite Hsrc, Hco. unfold mbind, result_bind, rbind, mret, result_ret.
  destruct (sql_detail_sources q2 st) as [srcs|e]; [|done].
  destruct (_ && _).
  - destruct (sql_detail_relations srcs st); [|done].
    by destruct (sql_detail_co_occurring q2 st).
  - by destruct (sql_detail_co_occurring q2 st).
Qed.

End case.




(** [explore_ignores_ascii_case] on [store_explore]: "AUTH" and "auth". *)
Lemma explore_ignores_ascii_case_witness :
  string_lower "AUTH" = string_lower "auth"
  ∧ match run (get_entity_detail (H := scan_engine) "AUTH") (opened "memory.db" store_explore),
          run (get_entity_detail (H := scan_engine) "auth") (opened "memory.db" store_explore)
    with
    | Ok d1, Ok d2 =>
        detail_sources d1 = detail_sources d2
        ∧ detail_relations d1 = detail_relations d2
        ∧ detail_co_occurring d1 = detail_co_occurring d2
    | Raise e1, Raise e2 => e1 = e2
    | _, _ => False
    end.
Proof.
  split; [reflexivity|].
  exact (explore_ignores_ascii_case (H := scan_engine) "memory.db" store_explore
           "AUTH" "auth" eq_refl).
Defined.

(** ** What the timeline shows *)

Lemma string_compare_trans a b c :
  String.compare a b ≠ Gt → String.compare b c ≠ Gt → String.compare a c ≠ Gt.
Proof.
  revert b c. induction a as [|x a IH]; intros [|y b] [|z c]; simpl; try done.
  unfold Ascii.compare.
  destruct (N.compare_spec (Ascii.N_of_ascii x) (Ascii.N_of_ascii y)) as [Hxy|Hxy|Hxy];
    destruct (N.compare_spec (Ascii.N_of_ascii y) (Ascii.N_of_ascii z)) as [Hyz|Hyz|Hyz];
    destruct (N.compare_spec (Ascii.N_of_ascii x) (Ascii.N_of_ascii z)) as [Hxz|Hxz|Hxz];
    try done; try lia.
  apply IH.
Qed.

#[global] Instance later_first_total : Total later_first.
Proof. intros x y. unfold later_first. destruct (String.leb_total x y); auto. Qed.

#[global] Instance later_first_trans : Transitive later_first.
Proof.
  intros x y z. unfold later_first, String.leb. intros Hyx Hzy.
  pose proof (string_compare_trans z y x) as Htrans.
  destruct (String.compare y x), (String.compare z y), (String.compare z x);
    try done; by destruct Htrans.
Qed.

#[global] Instance later_first_antisym : AntiSymm (=) later_first.
Proof. intros x y Hxy Hyx. by apply String.leb_antisym. Qed.







Section timeline_content.
Context `{Engine}.




End timeline_content.



(** ** The views and the command line *)

Lemma run_bind {A B} (m : M A) (k : A → M B) self :
  mutation_free m →
  run (m ≫= k) self
  = match run m self with
    | Ok a => run (k a) self
    | Raise e => Raise e
    end.
Proof.
  intros Hm. unfold run, mbind, M_bind. specialize (Hm self).
  destruct (m self) as [[a|e] self']; simpl in *; by subst.
Qed.

Section views.
Context `{Engine}.

Lemma mutation_free_render_stats : mutation_free render_stats.
Proof.
  unfold render_stats.
  apply mutation_free_bind; [apply mutation_free_get_stats|intros ?].
  apply mutation_free_bind; [apply mutation_free_get_entities|intros ?].
  apply mutation_free_bind; [apply mutation_free_get_top_entities|intros ?].
  apply mutation_free_ret.
Qed.

Lemma mutation_free_render_graph : mutation_free render_graph.
Proof.
  unfold render_graph.
  apply mutation_free_bind; [apply mutation_free_get_entities|intros ?].
  apply mutation_free_if; [apply mutation_free_ret|].
  apply mutation_free_bind; [apply mutation_free_get_relations|intros ?].
  apply mutation_free_bind; [apply mutation_free_get_co_occurrences|intros ?].
  apply mutation_free_ret.
Qed.

Lemma select_entity_counts_nil limit ems :
  limit ≠ 0 → select_entity_counts limit ems = [] → ems = [].
Proof.
  intros Hlimit Hnil. destruct ems as [|em ems]; [done|]. exfalso.
  destruct (grouped_complete (λ em, (em_entity em, em_entity_type em))
              (λ em c, {| entity := em_entity em; entity_type := em_entity_type em;
                          ref_count := c |}) (em :: ems) em)
    as (em0 & _ & _ & Hin); [apply list_elem_of_here|].
  apply (elem_of_order_by (desc_Z ref_count)) in Hin.
  unfold select_entity_counts, sql_limit in Hnil.
  destruct (order_by _ _) as [|r rs]; [by apply elem_of_nil in Hin|].
  destruct (Z.ltb_spec limit 0); [done|].
  destruct (Z.to_nat limit) as [|n] eqn:Hn; [lia|done].
Qed.

Lemma get_entities_empty path st limit :
  limit ≠ 0 →
  ∃ grouped,
    run (get_entities limit) (opened path st) = Ok grouped
    ∧ (grouped = ∅ ↔ mentions st = []).
Proof.
  intros Hlimit. eexists. split; [apply get_entities_opened|].
  unfold mentions. destruct (entity_metadata st) as [ems|]; [|done]. simpl. split.
  - intros Hempty. apply (select_entity_counts_nil limit); [done|].
    destruct (select_entity_counts limit ems) as [|r rs] eqn:Hrows; [done|].
    pose proof (foldl_grouped_append (r :: rs) ∅ (entity_type r)) as Hl.
    rewrite Hempty, lookup_empty, filter_cons in Hl.
    by destruct (decide (entity_type r = entity_type r)).
  - intros ->. unfold select_entity_counts. simpl.
    by rewrite order_by_nil, sql_limit_nil.
Qed.

Lemma render_stats_ok path st : run render_stats (opened path st) = Ok ().
Proof.
  unfold render_stats.
  rewrite run_bind, get_stats_opened by apply mutation_free_get_stats.
  rewrite run_bind, get_entities_opened by apply mutation_free_get_entities.
  by rewrite run_bind, get_top_entities_opened by apply mutation_free_get_top_entities.
Qed.

Lemma render_timeline_ok path st : run render_timeline (opened path st) = Ok ().
Proof.
  unfold render_timeline.
  by rewrite run_bind, get_timeline_opened by apply mutation_free_get_timeline.
Qed.

Lemma render_graph_is_ok path st :
  is_ok (run render_graph (opened path st))
  ↔ mentions st = [] ∨ entry_relations st = None ∨ source_tables_present st.
Proof.
  destruct (get_entities_empty path st 50) as (grouped & Hrun & Hempty); [done|].
  unfold render_graph.
  rewrite run_bind, Hrun by apply mutation_free_get_entities.
  destruct (bool_decide_reflect (grouped = ∅)) as [Hg|Hg].
  { split; [|done]. intros _. left. by apply Hempty. }
  rewrite run_bind, get_relations_opened by apply mutation_free_get_relations.
  unfold sql_relations, source_tables_present.
  destruct (entry_relations st) as [ers|]; simpl.
  2:{ rewrite run_bind, get_co_occurrences_opened
        by apply mutation_free_get_co_occurrences.
      split; [intros _; right; by left|done]. }
  destruct (sessions st), (knowledge st), (facts st); simpl;
    rewrite ?run_bind, ?get_co_occurrences_opened
      by apply mutation_free_get_co_occurrences;
    (split; [try done; auto|]);
    intros [Hm|[[=]|(? & ? & ?)]]; try done; by apply Hempty in Hm.
Qed.

Lemma render_full_is_ok path st :
  is_ok (run render_full (opened path st))
  ↔ mentions st = [] ∨ entry_relations st = None ∨ source_tables_present st.
Proof.
  rewrite <- (render_graph_is_ok path st). unfold render_full.
  rewrite run_bind, render_stats_ok by apply mutation_free_render_stats.
  rewrite run_bind by apply mutation_free_render_graph.
  destruct (run render_graph (opened path st)) as [[]|e]; simpl; [|tauto].
  by rewrite render_timeline_ok.
Qed.


(** X16. The database calls of the graph view, and with them those of the
    full view, fail exactly when there is a mention to show,
    [entry_relations] exists and one of the tables [sessions],
    [knowledge], [facts] does not: without mentions the view stops at its
    empty state before it asks for relations. The database calls of the
    statistics and timeline views succeed on every opened database. *)
Theorem views_that_can_fail path st :
  (is_ok (run render_graph (opened path st))
   ↔ mentions st = [] ∨ entry_relations st = None ∨ source_tables_present st)
  ∧ (is_ok (run render_full (opened path st))
     ↔ mentions st = [] ∨ entry_relations st = None ∨ source_tables_present st)
  ∧ is_ok (run render_stats (opened path st))
  ∧ is_ok (run render_timeline (opened path st)).
Proof.
  split; [apply render_graph_is_ok|]. split; [apply render_full_is_ok|].
  by rewrite render_stats_ok, render_timeline_ok.
Qed.

(** What [main] does once its checks have passed. *)
Lemma main_when_checks_pass rich fs args st :
  fs !! arg_db args = Some st → checks_pass fs args →
  main rich fs args
  = ([Connected (arg_db args);
      Render (if arg_plain args || negb rich then PlainRenderer_ else RichRenderer_)
             (arg_command args);
      Closed],
     match run (dispatch args) (opened (arg_db args) st) with
     | Ok _ => Finished
     | Raise e => Uncaught e
     end).
Proof.
  intros Hfs [Hentity (st' & Hfs' & Hmeta)]. rewrite Hfs in Hfs'. injection Hfs' as <-.
  unfold main, MemoryDB_init. rewrite Hfs.
  destruct (tables_opened (arg_db args) st) as (_ & _ & _ & Hte & _). rewrite Hte.
  assert (Hexplore : bool_decide (arg_command args = explore)
                     && no_entity (arg_entity args) = false).
  { destruct (bool_decide_reflect (arg_command args = explore)); [|done].
    by rewrite Hentity. }
  rewrite Hexplore.
  assert (Hgate : negb (default false (Some (table_present (entity_metadata st))))
                  && bool_decide (arg_command args = graph ∨ arg_command args = explore)
                  = false).
  { destruct (bool_decide_reflect (arg_command args = graph ∨ arg_command args = explore))
      as [Hc|]; [|by rewrite andb_false_r].
    simpl. by destruct (table_present (entity_metadata st)); [|destruct (Hmeta Hc)]. }
  rewrite Hgate. by destruct (run _ _).
Qed.

(** X17. [main] calls a view only when its three checks pass; otherwise
    it exits with status 1 or 2 and neither renders nor closes: an
    explore command without an entity exits with status 2 before the
    file is looked at; else a missing file exits with status 1; else a
    graph or explore command on a file without [entity_metadata] exits
    with status 1, leaving the connection it has just opened unclosed.
    When the checks pass, [main] connects, calls the requested view of
    the plain renderer exactly when [--plain] was given or Rich is not
    available, and closes the connection, also when the view raises. *)
Theorem main_checks_then_renders rich fs args :
  (checks_pass fs args →
   ∃ r, (main rich fs args).1
        = [Connected (arg_db args); Render r (arg_command args); Closed]
        ∧ (r = PlainRenderer_ ↔ arg_plain args = true ∨ rich = false)
        ∧ ∀ code, (main rich fs args).2 ≠ Exit code)
  ∧ (¬ checks_pass fs args →
     Forall (λ ev, ev ≠ Closed ∧ ∀ r c, ev ≠ Render r c) (main rich fs args).1
     ∧ ((main rich fs args).2 = Exit 1 ∨ (main rich fs args).2 = Exit 2))
  ∧ (arg_command args = explore → no_entity (arg_entity args) = true →
     main rich fs args = ([Stderr "explore command requires an entity name"], Exit 2))
  ∧ (¬ (arg_command args = explore ∧ no_entity (arg_entity args) = true) →
     fs !! arg_db args = None →
     main rich fs args
     = ([Stderr ("Error: Database not found: " +:+ arg_db args)], Exit 1))
  ∧ (∀ st, ¬ (arg_command args = explore ∧ no_entity (arg_entity args) = true) →
           fs !! arg_db args = Some st → entity_metadata st = None →
           arg_command args = graph ∨ arg_command args = explore →
           main rich fs args
           = ([Connected (arg_db args); Stderr "Entity metadata not initialized."],
              Exit 1)).
Proof.
  assert (Hentity : ¬ (arg_command args = explore ∧ no_entity (arg_entity args) = true) →
                    bool_decide (arg_command args = explore)
                    && no_entity (arg_entity args) = false).
  { intros Hnot. destruct (bool_decide_reflect (arg_command args = explore)); [|done].
    destruct (no_entity (arg_entity args)); [|done]. by destruct Hnot. }
  split_and!.
  - intros Hchecks. pose proof Hchecks as [_ (st & Hfs & _)].
    rewrite (main_when_checks_pass rich fs args st) by done. eexists. split_and!.
    + done.
    + destruct (arg_plain args), rich; simpl;
        (split; [intros ?|intros [?|?]]); try done; auto.
    + by destruct (run _ _).
  - unfold checks_pass, main, MemoryDB_init. intros Hfail.
    destruct (bool_decide_reflect (arg_command args = explore)) as [Hcmd|Hcmd]; simpl.
    { destruct (no_entity (arg_entity args)) eqn:Hno.
      { split; [|by right]. by repeat constructor. }
      destruct (fs !! arg_db args) as [st|] eqn:Hfs.
      2:{ split; [|by left]. by repeat constructor. }
      destruct (tables_opened (arg_db args) st) as (_ & _ & _ & Hte & _). rewrite Hte.
      destruct (table_present (entity_metadata st)) eqn:Hmeta; simpl.
      { exfalso. apply Hfail. split; [done|]. exists st. split; [done|].
        intros _. by rewrite Hmeta. }
      rewrite bool_decide_eq_true_2 by auto. split; [|by left]. by repeat constructor. }
    destruct (fs !! arg_db args) as [st|] eqn:Hfs.
    2:{ split; [|by left]. by repeat constructor. }
    destruct (tables_opened (arg_db args) st) as (_ & _ & _ & Hte & _). rewrite Hte.
    destruct (table_present (entity_metadata st)) eqn:Hmeta; simpl.
    { exfalso. apply Hfail. split; [done|]. exists st. split; [done|].
      intros _. by rewrite Hmeta. }
    destruct (bool_decide_reflect (arg_command args = graph ∨ arg_command args = explore))
      as [Hc|Hc].
    { split; [|by left]. by repeat constructor. }
    exfalso. apply Hfail. split; [done|]. exists st. split; [done|]. done.
  - intros Hcmd Hno. unfold main. by rewrite Hcmd, Hno.
  - intros Hnot Hfs. unfold main, MemoryDB_init. by rewrite Hentity, Hfs.
  - intros st Hnot Hfs Hmeta Hcmd. unfold main, MemoryDB_init. rewrite Hentity, Hfs by done.
    destruct (tables_opened (arg_db args) st) as (_ & _ & _ & Hte & _).
    rewrite Hte, Hmeta. simpl. by rewrite bool_decide_eq_true_2.
Qed.


End views.

(** ** The plain table *)

Lemma length_str_repeat c n : String.length (str_repeat c n) = Z.to_nat n.
Proof.
  unfold str_repeat. induction (Z.to_nat n) as [|k IH]; [done|]. simpl. by rewrite IH.
Qed.

Lemma length_substring_0 n s :
  String.length (String.substring 0 n s) = Nat.min n (String.length s).
Proof.
  revert s. induction n as [|n IH]; intros [|c s]; simpl; try done. by rewrite IH.
Qed.

Lemma length_ljust w s :
  String.length (ljust w s) = Nat.max (String.length s) (Z.to_nat w).
Proof. unfold ljust. rewrite length_string_app, length_str_repeat. lia. Qed.

Lemma length_str_slice_to w s :
  0 ≤ w → String.length (str_slice_to w s) = Nat.min (Z.to_nat w) (String.length s).
Proof.
  intros Hw. unfold str_slice_to. destruct (Z.ltb_spec w 0); [lia|].
  apply length_substring_0.
Qed.

(** A cell cut and padded to its column has the width of the column. *)
Lemma length_table_cell w s :
  0 ≤ w → String.length (ljust w (str_slice_to w s)) = Z.to_nat w.
Proof. intros Hw. rewrite length_ljust, length_str_slice_to by done. lia. Qed.

Lemma length_str_join sep l :
  String.length (str_join sep l)
  = (foldr (λ s n, String.length s + n) 0 l + String.length sep * (length l - 1))%nat.
Proof.
  induction l as [|x [|y l] IH]; simpl in *; [lia|lia|].
  rewrite !length_string_app, IH. simpl. lia.
Qed.

Lemma table_cells_Some i ws row :
  (i + length ws ≤ length row)%nat →
  ∃ cells, table_cells i ws row = Some cells
           ∧ Forall2 (λ w cell, 0 ≤ w → String.length cell = Z.to_nat w) ws cells.
Proof.
  revert i. induction ws as [|w ws IH]; intros i Hlen; simpl in *.
  { exists []. by split; [|constructor]. }
  destruct (lookup_lt_is_Some_2 row i) as [cell Hcell]; [lia|]. rewrite Hcell. simpl.
  destruct (IH (S i)) as (cells & -> & Hcells); [lia|]. simpl.
  eexists. split; [done|]. constructor; [|done].
  intros Hw. by apply length_table_cell.
Qed.

Lemma length_table_line ws cells :
  Forall (λ w, 0 ≤ w) ws →
  Forall2 (λ w cell, 0 ≤ w → String.length cell = Z.to_nat w) ws cells →
  String.length ("  " +:+ str_join "  " cells) = table_width ws.
Proof.
  intros Hws Hcells.
  assert (Hsum : foldr (λ s n, String.length s + n)%nat 0%nat cells
                 = foldr (λ w n, Z.to_nat w + n)%nat 0%nat ws).
  { induction Hcells as [|w cell ws cells Hcell Hcells IH]; [done|].
    apply Forall_cons in Hws as [Hw Hws]. simpl. by rewrite Hcell, IH. }
  pose proof (Forall2_length _ _ _ Hcells) as Hlen.
  rewrite length_string_app, length_str_join, Hsum, <- Hlen. unfold table_width.
  simpl. lia.
Qed.

Lemma table_rows_aligned ws rows :
  Forall (λ w, 0 ≤ w) ws →
  Forall (λ row, (length ws ≤ length row)%nat) rows →
  ∃ lines, table_rows ws rows = (lines, false)
           ∧ length lines = length rows
           ∧ Forall (λ l, String.length l = table_width ws) lines.
Proof.
  intros Hws Hrows. induction Hrows as [|row rows Hrow Hrows IH]; simpl.
  { exists []. by split_and!. }
  destruct (table_cells_Some 0 ws row) as (cells & -> & Hcells); [simpl; lia|].
  destruct IH as (lines & -> & Hlen & Hall).
  eexists. split; [done|]. split; [simpl; by rewrite Hlen|].
  constructor; [by apply length_table_line|done].
Qed.

(** X19. With column widths that are given and not negative, and rows
    that have a cell for every column, [_table] raises nothing and
    prints a header line, a rule, and one line per row; the rule and
    every row line have one and the same length, whatever the cells hold
    (a cell is cut or padded to its column); the header line has that
    length too when there is a header for each column and each fits its
    column. *)
Theorem table_lines_have_one_width headers rows ws :
  ws ≠ [] → Forall (λ w, 0 ≤ w) ws →
  Forall (λ row, (length ws ≤ length row)%nat) rows →
  ∃ header lines,
    _table headers rows (Some ws) = (header :: lines, false)
    ∧ length lines = S (length rows)
    ∧ Forall (λ l, String.length l = table_width ws) lines
    ∧ (Forall2 (λ h w, (String.length h ≤ Z.to_nat w)%nat) headers ws →
       String.length header = table_width ws).
Proof.
  intros Hne Hws Hrows. unfold _table.
  destruct ws as [|w0 ws0] eqn:Hw; [done|]. rewrite <- Hw in *. clear Hw Hne.
  destruct (table_rows_aligned ws rows Hws Hrows) as (lines & -> & Hlen & Hall).
  eexists _, _. split; [done|]. split; [simpl; by rewrite Hlen|]. split.
  - constructor; [|done]. apply length_table_line; [done|].
    clear. induction ws as [|w ws IH]; constructor; [|done].
    intros _. apply length_str_repeat.
  - intros Hfit. apply length_table_line; [done|].
    clear -Hfit. induction Hfit as [|h w hs ws Hh Hfit IH]; constructor; [|done].
    intros Hw. rewrite length_ljust. lia.
Qed.

(** [table_lines_have_one_width] on the relations table of the plain
    renderer: three columns of 30, 15 and 30 characters. *)
Lemma table_lines_have_one_width_witness :
  ∃ header lines,
    _table ["From"; "Relation"; "To"]
      [["Chose JWT for the API"; "established"; "fact:9"]] (Some [30; 15; 30])
    = (header :: lines, false)
    ∧ length lines = 2%nat
    ∧ Forall (λ l, String.length l = 81%nat) lines
    ∧ String.length header = 81%nat.
Proof.
  destruct (table_lines_have_one_width ["From"; "Relation"; "To"]
              [["Chose JWT for the API"; "established"; "fact:9"]] [30; 15; 30])
    as (header & lines & Hrun & Hlen & Hall & Hheader).
  - done.
  - repeat constructor; lia.
  - repeat constructor; simpl; lia.
  - exists header, lines. split; [exact Hrun|]. split; [exact Hlen|].
    split; [exact Hall|]. apply Hheader. repeat constructor; simpl; lia.
Defined.


(** ** What the renderers make of the derived rows *)

(** X20. Both renderers show at most 30 relations, and cut every label
    cell to the column: 35 characters in the rich table, 30 in the plain
    one, also for a label that [get_relations] did not truncate. *)
Theorem relation_cells_fit_columns (relations : list LabeledRelation) :
  (length (RichRenderer.relation_rows relations) ≤ 30)%nat
  ∧ Forall (λ row, (String.length row.1.1 ≤ 35)%nat ∧ (String.length row.2 ≤ 35)%nat)
      (RichRenderer.relation_rows relations)
  ∧ (length (PlainRenderer.relation_rows relations) ≤ 30)%nat
  ∧ Forall (λ row, (String.length row.1.1 ≤ 30)%nat ∧ (String.length row.2 ≤ 30)%nat)
      (PlainRenderer.relation_rows relations).
Proof.
  unfold RichRenderer.relation_rows, PlainRenderer.relation_rows.
  rewrite !length_fmap, !length_take. split_and!; try lia.
  - apply Forall_forall. intros row (rel & -> & _)%list_elem_of_fmap. simpl.
    split; apply length_substr1.
  - apply Forall_forall. intros row (rel & -> & _)%list_elem_of_fmap. simpl.
    split; apply length_substr1.
Qed.

Section found.
Context `{Engine}.


End found.

